(** * GOLEX gateway: the synchronization core

    A shallow embedding of
    - [app/workers/sync_worker.py]  (class [SyncWorker]),
    - [app/db/supabase_client.py]   (class [SupabaseClient]),
    - [app/storage/r2_client.py]    (class [R2StorageClient]),
    followed by the properties of the design document that concern them.

    Python values are a small inductive type, exceptions are a sum type,
    and the coroutines, which run strictly one after the other, are functions
    in a state-and-exception monad over the relational store and the
    object bucket. *)

From Stdlib Require Import ZArith Lia Ascii String List.
From stdpp Require Import base strings pretty list gmap sorting.

Set Warnings "-register-all".

Open Scope string_scope.
Open Scope Z_scope.

(** ** Python values and exceptions *)

Module Py.

(** The values that [json.loads] produces and that the code passes around
    under the type [Any].  Strings are ASCII text.  A float is carried by
    its [repr]; the code never computes with one. *)
Inductive value : Type :=
| VNone
| VBool (b : bool)
| VInt (n : Z)
| VFloat (r : string)
| VStr (s : string)
| VList (l : list value)
| VDict (kvs : list (string * value)).

Inductive exn : Type :=
| AttributeError     (* [.get] on something that is not a dict *)
| TypeError          (* [len] / iteration of a scalar *)
| ValueError         (* [int] of a malformed literal *)
| HTTPError          (* httpx transport error or non-2xx status *)
| ClientError        (* botocore error response *)
| EndpointConnectionError  (* botocore: the service cannot be reached *)
| KeyError           (* subscript of a dict by a missing key *)
| IndexError         (* subscript of a sequence out of range *)
| PostgresError.     (* asyncpg: constraint violation or bad argument *)

Inductive result (A : Type) : Type :=
| Ok (a : A)
| Raise (e : exn).
Arguments Ok {A} a.
Arguments Raise {A} e.

Definition is_ok {A} (r : result A) : bool :=
  match r with Ok _ => true | Raise _ => false end.

(** Truth value testing ([if x:], [if not x:]). *)
Definition truthy (v : value) : bool :=
  match v with
  | VNone => false
  | VBool b => b
  | VInt n => negb (n =? 0)
  | VFloat r => negb (String.eqb r "0.0" || String.eqb r "-0.0")
  | VStr s => negb (String.eqb s "")
  | VList l => match l with [] => false | _ => true end
  | VDict kvs => match kvs with [] => false | _ => true end
  end.

(** Truth value testing of an [Optional[str]] argument: it counts as
    supplied when it is neither [None] nor the empty string. *)
Definition supplied (f : option string) : option string :=
  match f with
  | Some s => if String.eqb s "" then None else Some s
  | None => None
  end.

(** A dict literal or parsed JSON object is an association list; a key
    occurs once, and lookup takes the first binding. *)
Fixpoint assoc (k : string) (kvs : list (string * value)) : option value :=
  match kvs with
  | [] => None
  | (k', v) :: rest => if String.eqb k k' then Some v else assoc k rest
  end.

(** [d.get(k, dflt)] on a dict. *)
Definition dict_get (kvs : list (string * value)) (k : string) (dflt : value) : value :=
  match assoc k kvs with Some v => v | None => dflt end.

(** [x.get(k, dflt)] on an arbitrary value: only dicts have the method. *)
Definition get (x : value) (k : string) (dflt : value) : result value :=
  match x with
  | VDict kvs => Ok (dict_get kvs k dflt)
  | _ => Raise AttributeError
  end.

(** [len(x)] followed by [for item in x]: lists give their items, dicts
    their keys, strings their characters; scalars have no length. *)
Definition iter (x : value) : result (list value) :=
  match x with
  | VList l => Ok l
  | VDict kvs => Ok (map (λ kv, VStr (fst kv)) kvs)
  | VStr s => Ok (map (λ c, VStr (String c "")) (list_ascii_of_string s))
  | _ => Raise TypeError
  end.

(** [len(x)] where the code guards an index with it. *)
Definition len (x : value) : result nat :=
  match iter x with Ok l => Ok (List.length l) | Raise e => Raise e end.

(** [x[i]] for a non-negative literal index. *)
Definition index (x : value) (i : nat) : result value :=
  match x with
  | VList l => match nth_error l i with Some v => Ok v | None => Raise IndexError end
  | VStr s =>
      match nth_error (list_ascii_of_string s) i with
      | Some c => Ok (VStr (String c ""))
      | None => Raise IndexError
      end
  | VDict _ => Raise KeyError
  | _ => Raise TypeError
  end.

(** Sequencing of pure computations that may raise. *)
Definition and_then {A B} (r : result A) (k : A → result B) : result B :=
  match r with
  | Ok a => k a
  | Raise e => Raise e
  end.

(** *** [str] and [repr] *)

Definition hex_digit (n : N) : ascii :=
  ascii_of_N (if (n <? 10)%N then 48 + n else 87 + n)%N.

(** One character inside a [repr]-quoted string, [q] being the quote. *)
Definition repr_char (q c : ascii) : string :=
  let n := N_of_ascii c in
  if Ascii.eqb c "\" then "\\"
  else if Ascii.eqb c q then String "\" (String q "")
  else if (n =? 10)%N then "\n"
  else if (n =? 13)%N then "\r"
  else if (n =? 9)%N then "\t"
  else if ((n <? 32) || (n =? 127))%N
       then String "\" (String "x" (String (hex_digit (n / 16)) (String (hex_digit (n mod 16)) "")))
  else String c "".

Fixpoint contains (c : ascii) (s : string) : bool :=
  match s with
  | EmptyString => false
  | String c' s' => Ascii.eqb c c' || contains c s'
  end.

Fixpoint repr_chars (q : ascii) (s : string) : string :=
  match s with
  | EmptyString => ""
  | String c s' => repr_char q c +:+ repr_chars q s'
  end.

(** The double quote, used when the text has a single quote and no double
    one. *)
Definition dquote : ascii := ascii_of_N 34.

Definition repr_str (s : string) : string :=
  let q : ascii := if contains "'" s && negb (contains dquote s) then dquote else "'"%char in
  String q (repr_chars q s) +:+ String q "".

Fixpoint join (sep : string) (l : list string) : string :=
  match l with
  | [] => ""
  | [x] => x
  | x :: rest => x +:+ sep +:+ join sep rest
  end.

Fixpoint repr (v : value) : string :=
  match v with
  | VNone => "None"
  | VBool true => "True"
  | VBool false => "False"
  | VInt n => pretty n
  | VFloat r => r
  | VStr s => repr_str s
  | VList l => "[" +:+ join ", " (map repr l) +:+ "]"
  | VDict kvs =>
      "{" +:+ join ", " (map (λ kv, repr_str (fst kv) +:+ ": " +:+ repr (snd kv)) kvs) +:+ "}"
  end.

(** [str(v)]: a string is itself, everything else prints as its [repr]. *)
Definition str (v : value) : string :=
  match v with
  | VStr s => s
  | _ => repr v
  end.

(** *** [int] of a string *)

(** The characters [int] strips from both ends of ASCII text: tab, line
    feed, vertical tab, form feed, carriage return and the space.  The
    separators 0x1c to 0x1f are not among them. *)
Definition is_space (c : ascii) : bool :=
  let n := N_of_ascii c in
  ((9 <=? n) && (n <=? 13) || (n =? 32))%N.

Definition is_digit (c : ascii) : bool :=
  let n := N_of_ascii c in ((48 <=? n) && (n <=? 57))%N.

Definition digit_val (c : ascii) : Z := Z.of_N (N_of_ascii c) - 48.

Fixpoint lstrip (s : list ascii) : list ascii :=
  match s with
  | c :: s' => if is_space c then lstrip s' else s
  | [] => []
  end.

Definition strip (s : list ascii) : list ascii :=
  rev (lstrip (rev (lstrip s))).

(** Decimal digits, single underscores allowed between two digits.
    [after_digit] tells whether the previous character was a digit;
    the second component counts the digits read. *)
Fixpoint digits (acc : Z) (count : nat) (after_digit : bool) (s : list ascii)
  : option (Z * nat) :=
  match s with
  | [] => if after_digit then Some (acc, count) else None
  | c :: s' =>
      if is_digit c then digits (10 * acc + digit_val c) (S count) true s'
      else if Ascii.eqb c "_" && after_digit then digits acc count false s'
      else None
  end.

(** [sys.get_int_max_str_digits()], the interpreter's default. *)
Definition int_max_str_digits : Z := 4300.

Definition int_of_str (s : string) : result Z :=
  let body := strip (list_ascii_of_string s) in
  let '(neg, body) :=
    match body with
    | c :: rest =>
        if Ascii.eqb c "-" then (true, rest)
        else if Ascii.eqb c "+" then (false, rest)
        else (false, body)
    | [] => (false, body)
    end in
  match digits 0 0 false body with
  | Some (n, count) =>
      if int_max_str_digits <? Z.of_nat count then Raise ValueError
      else Ok (if neg then - n else n)
  | None => Raise ValueError
  end.

(** [s.replace(c, '')] for a one-character [c]. *)
Fixpoint remove_char (c : ascii) (s : string) : string :=
  match s with
  | EmptyString => ""
  | String c' s' => if Ascii.eqb c c' then remove_char c s' else String c' (remove_char c s')
  end.

(** [s.startswith(p)], also the meaning of SQL [LIKE 'p%'] for a [p]
    without wildcards. *)
Fixpoint startswith (p s : string) : bool :=
  match p, s with
  | EmptyString, _ => true
  | String a p', String b s' => Ascii.eqb a b && startswith p' s'
  | String _ _, EmptyString => false
  end.

End Py.
Import Py.

(** ** The world the coroutines act on *)

(** Rows of the three tables.  The primary key is the key of the map that
    holds the table; the other columns hold the values the driver was
    handed ([VNone] is SQL NULL).  The schema is not part of the repository:
    apart from the text primary keys no column type is enforced here. *)
Record fixture_row : Type := {
  fx_league_id : value;
  fx_home_team_id : value;
  fx_away_team_id : value;
  fx_match_date : value;
  fx_status : value;
  fx_home_score : value;
  fx_away_score : value;
  fx_venue : value;
  fx_referee_id : value;
  fx_updated_at : Z
}.

Record team_row : Type := {
  tm_name : value;
  tm_logo_url : value;
  tm_country : value;
  tm_league_id : value;
  tm_founded : value;
  tm_venue : value;
  tm_created_at : Z
}.

Record stats_row : Type := {
  st_home_xg : value;
  st_away_xg : value;
  st_home_possession : value;
  st_away_possession : value;
  st_home_shots : value;
  st_away_shots : value;
  st_home_shots_on_target : value;
  st_away_shots_on_target : value;
  st_home_corners : value;
  st_away_corners : value;
  st_home_fouls : value;
  st_away_fouls : value;
  st_updated_at : Z
}.

(** An object of the bucket, as [put_object] stores it. *)
Record object : Type := {
  ob_body : string;
  ob_content_type : string;
  ob_cache_control : string
}.

(** The relational store, the bucket, the database clock that [NOW()]
    reads, and a record of the [put_object] calls that went through
    (newest first), kept to count transfers. *)
Record world : Type := {
  fixtures : gmap string fixture_row;
  teams : gmap string team_row;
  fixture_stats : gmap string stats_row;
  bucket : gmap string object;
  puts : list string;
  clock : Z
}.

Definition set_fixtures (f : gmap string fixture_row) (w : world) : world :=
  {| fixtures := f; teams := teams w; fixture_stats := fixture_stats w;
     bucket := bucket w; puts := puts w; clock := clock w |}.

Definition set_teams (t : gmap string team_row) (w : world) : world :=
  {| fixtures := fixtures w; teams := t; fixture_stats := fixture_stats w;
     bucket := bucket w; puts := puts w; clock := clock w |}.

Definition set_fixture_stats (s : gmap string stats_row) (w : world) : world :=
  {| fixtures := fixtures w; teams := teams w; fixture_stats := s;
     bucket := bucket w; puts := puts w; clock := clock w |}.

Definition put_bucket (key : string) (o : object) (w : world) : world :=
  {| fixtures := fixtures w; teams := teams w; fixture_stats := fixture_stats w;
     bucket := <[key := o]> (bucket w); puts := key :: puts w; clock := clock w |}.

(** Time passing between two statements. *)
Definition elapse (dt : Z) (w : world) : world :=
  {| fixtures := fixtures w; teams := teams w; fixture_stats := fixture_stats w;
     bucket := bucket w; puts := puts w; clock := clock w + dt |}.

Definition empty_world : world :=
  {| fixtures := ∅; teams := ∅; fixture_stats := ∅; bucket := ∅; puts := []; clock := 0 |}.

(** [delete_object] took the key away; the record of uploads stays. *)
Definition drop_bucket (key : string) (w : world) : world :=
  {| fixtures := fixtures w; teams := teams w; fixture_stats := fixture_stats w;
     bucket := delete key (bucket w); puts := puts w; clock := clock w |}.

(** The process around the store: the connection pool of the global
    [supabase_client] is absent until [connect], then open, then closed
    ([self.pool] keeps the closed pool). *)
Inductive pool_state : Type :=
| NoPool
| PoolOpen
| PoolClosed.

Record process : Type := {
  pool : pool_state;
  store : world
}.

(** What lies outside the process: configuration, the upstream provider
    and the HTTP and S3 transports.  A request either yields its answer or
    raises. *)
Record env : Type := {
  (* [settings.R2_PUBLIC_URL] *)
  R2_PUBLIC_URL : string;
  (* [mimetypes.guess_type(key)[0]] *)
  guess_type : string → option string;
  (* GET [url]: the [content-type] header and the body *)
  download : string → result (option string * string);
  (* whether [put_object] for a key is accepted *)
  put_object_ok : string → bool;
  (* GET /fixtures with [league], [from], [to] (season fixed), then
     [raise_for_status] and [.json()] *)
  fixtures_endpoint : string → string → string → result value;
  (* GET /fixtures/statistics with [fixture], likewise *)
  statistics_endpoint : string → result value;
  (* the order of the [match_date] column on values that are not NULL *)
  match_date_le : value → value → bool;
  (* the error, if any, with which the store answers a write to the row
     of a table (given by name and primary key) while [_save_fixture]
     awaits it: a lost connection, a statement timeout, a violated
     constraint *)
  store_refuses : string → string → option exn
}.

(** ** Coroutines: state and exceptions *)

Definition M (A : Type) : Type := world → result A * world.

Definition ret {A} (a : A) : M A := λ w, (Ok a, w).

Definition bind {A B} (c : M A) (k : A → M B) : M B := λ w,
  match c w with
  | (Ok a, w') => k a w'
  | (Raise e, w') => (Raise e, w')
  end.

Definition raise {A} (e : exn) : M A := λ w, (Raise e, w).

(** A pure computation that may raise. *)
Definition lift {A} (r : result A) : M A := λ w, (r, w).

(** [try: c  except Exception: h]. What [c] did to the world before it
    raised stays done. *)
Definition try_except {A} (c : M A) (h : exn → M A) : M A := λ w,
  match c w with
  | (Ok a, w') => (Ok a, w')
  | (Raise e, w') => h e w'
  end.

Declare Scope coro_scope.
Delimit Scope coro_scope with coro.
Notation "x <- c ;; k" := (bind c (λ x, k))
  (at level 100, c at next level, right associativity) : coro_scope.
Notation "c ;;; k" := (bind c (λ _, k))
  (at level 100, right associativity) : coro_scope.
Open Scope coro_scope.

(** The final world and the returned value of a run. *)
Definition exec {A} (c : M A) (w : world) : world := snd (c w).
Definition eval {A} (c : M A) (w : world) : result A := fst (c w).

(** ** [SupabaseClient]: the relational store *)

Module SupabaseClient.

(** A text primary key: NULL violates NOT NULL, a value that is not a
    [str] is refused by the driver. *)
Definition text_key (v : value) : result string :=
  match v with
  | VStr s => Ok s
  | _ => Raise PostgresError
  end.

(** [INSERT INTO fixtures (...) VALUES ($1 .. $10, NOW())
     ON CONFLICT (id) DO UPDATE SET status, home_score, away_score
     = EXCLUDED.*, updated_at = NOW()]. *)
Definition upsert_fixture (fixture_data : list (string * value)) : M unit := λ w,
  let arg k := dict_get fixture_data k VNone in
  match text_key (arg "id") with
  | Raise e => (Raise e, w)
  | Ok id =>
      let row :=
        match fixtures w !! id with
        | None =>
            {| fx_league_id := arg "league_id";
               fx_home_team_id := arg "home_team_id";
               fx_away_team_id := arg "away_team_id";
               fx_match_date := arg "match_date";
               fx_status := arg "status";
               fx_home_score := arg "home_score";
               fx_away_score := arg "away_score";
               fx_venue := arg "venue";
               fx_referee_id := arg "referee_id";
               fx_updated_at := clock w |}
        | Some old =>
            {| fx_league_id := fx_league_id old;
               fx_home_team_id := fx_home_team_id old;
               fx_away_team_id := fx_away_team_id old;
               fx_match_date := fx_match_date old;
               fx_status := arg "status";
               fx_home_score := arg "home_score";
               fx_away_score := arg "away_score";
               fx_venue := fx_venue old;
               fx_referee_id := fx_referee_id old;
               fx_updated_at := clock w |}
        end in
      (Ok tt, set_fixtures (<[id := row]> (fixtures w)) w)
  end.

(** [INSERT INTO teams (...) VALUES ($1 .. $7, NOW())
     ON CONFLICT (id) DO UPDATE SET name, logo_url, venue = EXCLUDED.*]. *)
Definition upsert_team (team_data : list (string * value)) : M unit := λ w,
  let arg k := dict_get team_data k VNone in
  match text_key (arg "id") with
  | Raise e => (Raise e, w)
  | Ok id =>
      let row :=
        match teams w !! id with
        | None =>
            {| tm_name := arg "name";
               tm_logo_url := arg "logo_url";
               tm_country := arg "country";
               tm_league_id := arg "league_id";
               tm_founded := arg "founded";
               tm_venue := arg "venue";
               tm_created_at := clock w |}
        | Some old =>
            {| tm_name := arg "name";
               tm_logo_url := arg "logo_url";
               tm_country := tm_country old;
               tm_league_id := tm_league_id old;
               tm_founded := tm_founded old;
               tm_venue := arg "venue";
               tm_created_at := tm_created_at old |}
        end in
      (Ok tt, set_teams (<[id := row]> (teams w)) w)
  end.

(** [INSERT INTO fixture_stats (...) VALUES ($1 .. $13, NOW())
     ON CONFLICT (fixture_id) DO UPDATE SET home_xg, away_xg,
     home_possession, away_possession, home_shots, away_shots
     = EXCLUDED.*, updated_at = NOW()]. *)
Definition upsert_fixture_stats (fixture_id : string) (stats : list (string * value))
  : M unit := λ w,
  let arg k := dict_get stats k VNone in
  let row :=
    match fixture_stats w !! fixture_id with
    | None =>
        {| st_home_xg := arg "home_xg";
           st_away_xg := arg "away_xg";
           st_home_possession := arg "home_possession";
           st_away_possession := arg "away_possession";
           st_home_shots := arg "home_shots";
           st_away_shots := arg "away_shots";
           st_home_shots_on_target := arg "home_shots_on_target";
           st_away_shots_on_target := arg "away_shots_on_target";
           st_home_corners := arg "home_corners";
           st_away_corners := arg "away_corners";
           st_home_fouls := arg "home_fouls";
           st_away_fouls := arg "away_fouls";
           st_updated_at := clock w |}
    | Some old =>
        {| st_home_xg := arg "home_xg";
           st_away_xg := arg "away_xg";
           st_home_possession := arg "home_possession";
           st_away_possession := arg "away_possession";
           st_home_shots := arg "home_shots";
           st_away_shots := arg "away_shots";
           st_home_shots_on_target := st_home_shots_on_target old;
           st_away_shots_on_target := st_away_shots_on_target old;
           st_home_corners := st_home_corners old;
           st_away_corners := st_away_corners old;
           st_home_fouls := st_home_fouls old;
           st_away_fouls := st_away_fouls old;
           st_updated_at := clock w |}
    end in
  (Ok tt, set_fixture_stats (<[fixture_id := row]> (fixture_stats w)) w).

(** *** [get_fixtures] *)

(** [column = $n] for a text parameter; NULL is equal to nothing. *)
Definition sql_eq (v : value) (s : string) : bool :=
  match v with
  | VStr s' => String.eqb s' s
  | _ => false
  end.

(** [column >= $n] and [column <= $n]; a comparison with NULL is not true. *)
Definition sql_ge (E : env) (v : value) (s : string) : bool :=
  match v with
  | VNone => false
  | _ => match_date_le E (VStr s) v
  end.

Definition sql_le (E : env) (v : value) (s : string) : bool :=
  match v with
  | VNone => false
  | _ => match_date_le E v (VStr s)
  end.

(** One conjunct of the WHERE clause: absent when the filter is not
    supplied. *)
Definition conjunct (f : option string) (p : string → bool) : bool :=
  match supplied f with
  | Some s => p s
  | None => true
  end.

(** [WHERE 1=1 AND ...] as assembled by the four [if] blocks. *)
Definition where_clause (E : env) (date_from date_to league_id status : option string)
    (r : fixture_row) : bool :=
  conjunct date_from (sql_ge E (fx_match_date r))
  && conjunct date_to (sql_le E (fx_match_date r))
  && conjunct league_id (sql_eq (fx_league_id r))
  && conjunct status (sql_eq (fx_status r)).

(** [ORDER BY match_date ASC]: NULLs sort last. *)
Definition match_date_asc_b (E : env) (a b : string * fixture_row) : bool :=
  match fx_match_date (snd a), fx_match_date (snd b) with
  | _, VNone => true
  | VNone, _ => false
  | x, y => match_date_le E x y
  end.

Definition match_date_asc (E : env) : relation (string * fixture_row) :=
  λ a b, Is_true (match_date_asc_b E a b).

Global Instance match_date_asc_dec E a b : Decision (match_date_asc E a b).
Proof. unfold match_date_asc. apply _. Defined.

(** [LIMIT $n] with a bigint parameter. *)
Definition sql_limit {A} (limit : Z) (rows : list A) : result (list A) :=
  if (limit <? 0) || (9223372036854775807 <? limit) then Raise PostgresError
  else Ok (take (Z.to_nat limit) rows).

Definition get_fixtures (E : env) (date_from date_to league_id status : option string)
    (limit : Z) : M (list (string * fixture_row)) := λ w,
  let selected :=
    filter (λ kr, Is_true (where_clause E date_from date_to league_id status (snd kr)))
           (map_to_list (fixtures w)) in
  (sql_limit limit (merge_sort (match_date_asc E) selected), w).

(** *** The pool and [get_team] *)

(** [connect]: [asyncpg.create_pool] either hands over a pool or raises
    ([create_pool] is [Some e]); the exception is logged and raised
    again. *)
Definition connect (create_pool : option exn) (p : process) : result unit * process :=
  match create_pool with
  | None => (Ok tt, {| pool := PoolOpen; store := store p |})
  | Some e => (Raise e, p)
  end.

(** [disconnect]: [if self.pool: await self.pool.close()]. *)
Definition disconnect (p : process) : process :=
  match pool p with
  | NoPool => p
  | _ => {| pool := PoolClosed; store := store p |}
  end.

(** [SELECT * FROM teams WHERE id = $1] through [fetch_one]: the row as
    a dict, or [None]. *)
Definition get_team (team_id : string) : M (option (string * team_row)) := λ w,
  (Ok ((λ r, (team_id, r)) <$> teams w !! team_id), w).

End SupabaseClient.

(** ** [R2StorageClient]: the object bucket *)

Module R2StorageClient.

(** [head_object] answers for the keys the bucket holds and raises
    [ClientError] (caught, giving [False]) for the others. *)
Definition file_exists (object_key : string) : M bool := λ w,
  (Ok (bool_decide (is_Some (bucket w !! object_key))), w).

Definition get_public_url (E : env) (object_key : string) : string :=
  R2_PUBLIC_URL E +:+ "/" +:+ object_key.

(** [if not content_type:] guess from the key, else fall back. *)
Definition resolve_content_type (E : env) (object_key : string)
    (content_type : option string) : string :=
  match supplied content_type with
  | Some t => t
  | None =>
      match supplied (guess_type E object_key) with
      | Some t => t
      | None => "application/octet-stream"
      end
  end.

Definition upload_file (E : env) (file_data : string) (object_key : string)
    (content_type : option string) : M string := λ w,
  let content_type := resolve_content_type E object_key content_type in
  if put_object_ok E object_key then
    (Ok (R2_PUBLIC_URL E +:+ "/" +:+ object_key),
     put_bucket object_key
       {| ob_body := file_data; ob_content_type := content_type;
          ob_cache_control := "public, max-age=31536000" |} w)
  else (Raise ClientError, w).

Definition upload_from_url (E : env) (url : string) (object_key : string) : M string :=
  response <- lift (download E url) ;;
  upload_file E (snd response) object_key (fst response).

Definition upload_team_logo (E : env) (team_id : string) (logo_url : string) : M string :=
  let object_key := "teams/" +:+ team_id +:+ ".png" in
  present <- file_exists object_key ;;
  if (present : bool) then ret (get_public_url E object_key)
  else upload_from_url E logo_url object_key.

Definition upload_player_photo (E : env) (player_id : string) (photo_url : string)
  : M string :=
  let object_key := "players/" +:+ player_id +:+ ".png" in
  present <- file_exists object_key ;;
  if (present : bool) then ret (get_public_url E object_key)
  else upload_from_url E photo_url object_key.

Definition upload_league_logo (E : env) (league_id : string) (logo_url : string)
  : M string :=
  let object_key := "leagues/" +:+ league_id +:+ ".png" in
  present <- file_exists object_key ;;
  if (present : bool) then ret (get_public_url E object_key)
  else upload_from_url E logo_url object_key.

(** [delete_file]: [delete_object] tells how the service answers the
    [delete_object] for a key.  Only a [ClientError] is caught and
    answered with [False]; any other exception leaves [delete_file]. *)
Definition delete_file (delete_object : string → result unit) (object_key : string)
  : M bool := λ w,
  match delete_object object_key with
  | Ok _ => (Ok true, drop_bucket object_key w)
  | Raise ClientError => (Ok false, w)
  | Raise e => (Raise e, w)
  end.

End R2StorageClient.

(** ** [SyncWorker] *)

Module SyncWorker.

Import SupabaseClient R2StorageClient.

(** *** Mapping and saving one fixture *)

(** Lines 89-105 of [_save_fixture]: the four nested objects are taken
    with an empty dict as default, then [fixture_obj] is built entry by
    entry.  Returns [fixture_obj] and [teams]. *)
Definition map_fixture (fixture_data : value) : result (list (string * value) * value) :=
  and_then (get fixture_data "fixture" (VDict [])) (λ fixture,
  and_then (get fixture_data "league" (VDict [])) (λ league,
  and_then (get fixture_data "teams" (VDict [])) (λ teams,
  and_then (get fixture_data "goals" (VDict [])) (λ goals,
  and_then (get fixture "id" VNone) (λ id,
  and_then (get league "id" VNone) (λ league_id,
  and_then (and_then (get teams "home" (VDict [])) (λ h, get h "id" VNone)) (λ home_team_id,
  and_then (and_then (get teams "away" (VDict [])) (λ a, get a "id" VNone)) (λ away_team_id,
  and_then (get fixture "date" VNone) (λ match_date,
  and_then (and_then (get fixture "status" (VDict [])) (λ st, get st "short" (VStr "NS"))) (λ status,
  and_then (get goals "home" VNone) (λ home_score,
  and_then (get goals "away" VNone) (λ away_score,
  and_then (and_then (get fixture "venue" (VDict [])) (λ v, get v "name" VNone)) (λ venue,
  and_then (get fixture "referee" VNone) (λ referee_id,
  Ok ([ ("id", VStr (str id));
        ("league_id", VStr (str league_id));
        ("home_team_id", VStr (str home_team_id));
        ("away_team_id", VStr (str away_team_id));
        ("match_date", match_date);
        ("status", status);
        ("home_score", home_score);
        ("away_score", away_score);
        ("venue", venue);
        ("referee_id", referee_id) ], teams))))))))))))))).

(** Lines 118-126 of [_save_team]. *)
Definition map_team (team_data : value) : result (list (string * value)) :=
  and_then (get team_data "id" VNone) (λ id,
  and_then (get team_data "name" VNone) (λ name,
  and_then (get team_data "logo" VNone) (λ logo,
  and_then (get team_data "country" VNone) (λ country,
  Ok [ ("id", VStr (str id));
       ("name", name);
       ("logo_url", logo);
       ("country", country);
       ("league_id", VNone);
       ("founded", VNone);
       ("venue", VNone) ])))).

Definition _save_team (team_data : value) : M unit :=
  if negb (truthy team_data) then ret tt
  else
    team_obj <- lift (map_team team_data) ;;
    upsert_team team_obj.

(** An awaited write of [_save_fixture]: the store either refuses it,
    and the await raises before anything is written, or executes the
    statement. *)
Definition awaited {A} (E : env) (table key : string) (c : M A) : M A :=
  match store_refuses E table key with
  | Some e => raise e
  | None => c
  end.

(** The row of [teams] that [_save_team] writes for a payload: none when
    the payload is falsy or does not map. *)
Definition written_team (team_data : value) : option string :=
  if truthy team_data then
    match map_team team_data with
    | Ok team_obj => Some (str (dict_get team_obj "id" VNone))
    | Raise _ => None
    end
  else None.

(** [await self._save_team(team_data)] inside [_save_fixture]: a call
    that gets as far as its store statement may be refused there. *)
Definition awaited_save_team (E : env) (team_data : value) : M unit :=
  match written_team team_data with
  | Some id => awaited E "teams" id (_save_team team_data)
  | None => _save_team team_data
  end.

(** The three awaits of lines 107-111 run one after the other with no
    transaction around them: what the earlier ones wrote stays when a
    later one raises. *)
Definition _save_fixture (E : env) (fixture_data : value) : M unit :=
  mapped <- lift (map_fixture fixture_data) ;;
  let '(fixture_obj, teams) := mapped in
  awaited E "fixtures" (str (dict_get fixture_obj "id" VNone))
    (upsert_fixture fixture_obj) ;;;
  home <- lift (get teams "home" VNone) ;;
  awaited_save_team E home ;;;
  away <- lift (get teams "away" VNone) ;;
  awaited_save_team E away.

(** *** [sync_fixtures] *)

Definition default_leagues : list string := ["39"; "140"; "78"; "135"; "61"].

(** The inner [for fixture in fixtures:] with its local counter.  A raise
    leaves the loop; the counter keeps what was added before. *)
Fixpoint save_each (E : env) (fixtures : list value) (total_synced : Z) (w : world)
  : result unit * Z * world :=
  match fixtures with
  | [] => (Ok tt, total_synced, w)
  | fixture :: rest =>
      match _save_fixture E fixture w with
      | (Ok _, w') => save_each E rest (total_synced + 1) w'
      | (Raise e, w') => (Raise e, total_synced, w')
      end
  end.

(** The body of the [try] for one league. *)
Definition sync_league (E : env) (date_from date_to league_id : string)
    (total_synced : Z) (w : world) : result unit * Z * world :=
  match
    and_then (fixtures_endpoint E league_id date_from date_to) (λ data,
    and_then (get data "response" (VList [])) iter)
  with
  | Ok fixtures => save_each E fixtures total_synced w
  | Raise e => (Raise e, total_synced, w)
  end.

(** [for league_id in leagues: try: ... except Exception: continue]. *)
Fixpoint each_league (E : env) (date_from date_to : string) (leagues : list string)
    (total_synced : Z) (w : world) : Z * world :=
  match leagues with
  | [] => (total_synced, w)
  | league_id :: rest =>
      let '(_, total_synced', w') := sync_league E date_from date_to league_id total_synced w in
      each_league E date_from date_to rest total_synced' w'
  end.

Definition sync_fixtures (E : env) (date_from date_to : string)
    (leagues : option (list string)) : M Z := λ w,
  let leagues :=
    match leagues with
    | Some (l :: ls) => l :: ls
    | _ => default_leagues
    end in
  let '(total_synced, w') := each_league E date_from date_to leagues 0 w in
  (Ok total_synced, w').

(** *** [sync_team_logos] *)

Definition upstream_prefix : string := "https://media.api-sports.io".

(** [SELECT id, name, logo_url FROM teams
     WHERE logo_url LIKE 'https://media.api-sports.io%' LIMIT $1]. *)
Definition has_upstream_logo (r : team_row) : option string :=
  match tm_logo_url r with
  | VStr u => if startswith upstream_prefix u then Some u else None
  | _ => None
  end.

Definition select_upstream_teams (limit : Z) : M (list (string * string)) := λ w,
  (sql_limit limit
     (omap (λ kr, u ← has_upstream_logo (snd kr); Some (fst kr, u))
           (map_to_list (teams w))), w).

(** [UPDATE teams SET logo_url = $1 WHERE id = $2]. *)
Definition update_logo (r2_url : string) (team_id : string) : M unit := λ w,
  let set_logo r :=
    {| tm_name := tm_name r; tm_logo_url := VStr r2_url; tm_country := tm_country r;
       tm_league_id := tm_league_id r; tm_founded := tm_founded r;
       tm_venue := tm_venue r; tm_created_at := tm_created_at r |} in
  (Ok tt, set_teams (alter set_logo team_id (teams w)) w).

(** [for team in teams: try: ... uploaded += 1  except Exception: continue]. *)
Fixpoint each_team (E : env) (teams : list (string * string)) (uploaded : Z) : M Z :=
  match teams with
  | [] => ret uploaded
  | (team_id, api_logo_url) :: rest =>
      uploaded' <- try_except
        (r2_url <- upload_team_logo E team_id api_logo_url ;;
         update_logo r2_url team_id ;;;
         ret (uploaded + 1))
        (λ _, ret uploaded) ;;
      each_team E rest uploaded'
  end.

Definition sync_team_logos (E : env) (limit : Z) : M Z :=
  teams <- select_upstream_teams limit ;;
  each_team E teams 0.

(** *** [sync_fixture_stats] *)

(** The inner function [get_stat] of [_parse_fixture_stats]. *)
Definition normalize (v : value) : result value :=
  match v with
  | VStr s =>
      if contains "%" s then and_then (int_of_str (remove_char "%" s)) (λ n, Ok (VInt n))
      else Ok v
  | _ => Ok v
  end.

Definition type_is (t : value) (stat_type : string) : bool :=
  match t with
  | VStr s => String.eqb s stat_type
  | _ => false
  end.

Fixpoint find_stat (stats : list value) (stat_type : string) : result value :=
  match stats with
  | [] => Ok VNone
  | stat :: rest =>
      and_then (get stat "type" VNone) (λ t,
        if type_is t stat_type
        then and_then (get stat "value" VNone) normalize
        else find_stat rest stat_type)
  end.

Definition get_stat (stats_list : value) (stat_type : string) : result value :=
  and_then (iter stats_list) (λ stats, find_stat stats stat_type).

(** [stats_data[i].get("statistics", []) if len(stats_data) > i else []]. *)
Definition side_stats (stats_data : value) (i : nat) : result value :=
  and_then (len stats_data) (λ n,
    if (i <? n)%nat
    then and_then (index stats_data i) (λ side, get side "statistics" (VList []))
    else Ok (VList [])).

Definition _parse_fixture_stats (stats_data : value) : result (list (string * value)) :=
  and_then (side_stats stats_data 0) (λ home_stats,
  and_then (side_stats stats_data 1) (λ away_stats,
  and_then (get_stat home_stats "Ball Possession") (λ home_possession,
  and_then (get_stat away_stats "Ball Possession") (λ away_possession,
  and_then (get_stat home_stats "Total Shots") (λ home_shots,
  and_then (get_stat away_stats "Total Shots") (λ away_shots,
  and_then (get_stat home_stats "Shots on Goal") (λ home_shots_on_target,
  and_then (get_stat away_stats "Shots on Goal") (λ away_shots_on_target,
  and_then (get_stat home_stats "Corner Kicks") (λ home_corners,
  and_then (get_stat away_stats "Corner Kicks") (λ away_corners,
  and_then (get_stat home_stats "Fouls") (λ home_fouls,
  and_then (get_stat away_stats "Fouls") (λ away_fouls,
  Ok [ ("home_xg", VNone);
       ("away_xg", VNone);
       ("home_possession", home_possession);
       ("away_possession", away_possession);
       ("home_shots", home_shots);
       ("away_shots", away_shots);
       ("home_shots_on_target", home_shots_on_target);
       ("away_shots_on_target", away_shots_on_target);
       ("home_corners", home_corners);
       ("away_corners", away_corners);
       ("home_fouls", home_fouls);
       ("away_fouls", away_fouls) ])))))))))))).




(** *** Scheduled tasks and the manual run *)

(** [connect()], then [try: body  finally: disconnect()].  A failing
    [connect] is outside the [try]. *)
Definition connected {A} (create_pool : option exn) (body : M A) (p : process)
  : result A * process :=
  match connect create_pool p with
  | (Raise e, p') => (Raise e, p')
  | (Ok _, p') =>
      let '(r, w') := body (store p') in
      (r, disconnect {| pool := pool p'; store := w' |})
  end.

(** [today] is [datetime.now().date()] as a day number and [strftime]
    prints a day as [%Y-%m-%d]. *)
Definition daily_fixture_sync (E : env) (create_pool : option exn)
    (strftime : Z → string) (today : Z) : process → result unit * process :=
  connected create_pool
    (sync_fixtures E (strftime today) (strftime (today + 7)) None ;;;
     sync_team_logos E 50 ;;;
     ret tt).

Definition live_score_sync (E : env) (create_pool : option exn)
    (strftime : Z → string) (today : Z) : process → result unit * process :=
  connected create_pool
    (sync_fixtures E (strftime today) (strftime today) None ;;;
     ret tt).

(** [main]: as the daily task with a cap of 100; [except Exception]
    logs and raises again. *)
Definition main (E : env) (create_pool : option exn)
    (strftime : Z → string) (today : Z) : process → result unit * process :=
  connected create_pool
    (try_except
       (sync_fixtures E (strftime today) (strftime (today + 7)) None ;;;
        sync_team_logos E 100 ;;;
        ret tt)
       (λ e, raise e)).

End SyncWorker.

(** * The vocabulary of the properties *)

Import SupabaseClient R2StorageClient SyncWorker.

(** The row an [upsert_fixture] leaves when the id was already there. *)
Definition merged_fixture (now : Z) (fixture_data : list (string * value))
    (old : fixture_row) : fixture_row :=
  {| fx_league_id := fx_league_id old;
     fx_home_team_id := fx_home_team_id old;
     fx_away_team_id := fx_away_team_id old;
     fx_match_date := fx_match_date old;
     fx_status := dict_get fixture_data "status" VNone;
     fx_home_score := dict_get fixture_data "home_score" VNone;
     fx_away_score := dict_get fixture_data "away_score" VNone;
     fx_venue := fx_venue old;
     fx_referee_id := fx_referee_id old;
     fx_updated_at := now |}.

(** The row it leaves when the id was new. *)
Definition fresh_fixture (now : Z) (fixture_data : list (string * value)) : fixture_row :=
  {| fx_league_id := dict_get fixture_data "league_id" VNone;
     fx_home_team_id := dict_get fixture_data "home_team_id" VNone;
     fx_away_team_id := dict_get fixture_data "away_team_id" VNone;
     fx_match_date := dict_get fixture_data "match_date" VNone;
     fx_status := dict_get fixture_data "status" VNone;
     fx_home_score := dict_get fixture_data "home_score" VNone;
     fx_away_score := dict_get fixture_data "away_score" VNone;
     fx_venue := dict_get fixture_data "venue" VNone;
     fx_referee_id := dict_get fixture_data "referee_id" VNone;
     fx_updated_at := now |}.

Definition touch (now : Z) (r : fixture_row) : fixture_row :=
  {| fx_league_id := fx_league_id r;
     fx_home_team_id := fx_home_team_id r;
     fx_away_team_id := fx_away_team_id r;
     fx_match_date := fx_match_date r;
     fx_status := fx_status r;
     fx_home_score := fx_home_score r;
     fx_away_score := fx_away_score r;
     fx_venue := fx_venue r;
     fx_referee_id := fx_referee_id r;
     fx_updated_at := now |}.

(** Every payload-derived column of [r] carries the payload's value. *)
Definition carries_payload (fixture_data : list (string * value)) (r : fixture_row) : Prop :=
  fx_league_id r = dict_get fixture_data "league_id" VNone
  ∧ fx_home_team_id r = dict_get fixture_data "home_team_id" VNone
  ∧ fx_away_team_id r = dict_get fixture_data "away_team_id" VNone
  ∧ fx_match_date r = dict_get fixture_data "match_date" VNone
  ∧ fx_status r = dict_get fixture_data "status" VNone
  ∧ fx_home_score r = dict_get fixture_data "home_score" VNone
  ∧ fx_away_score r = dict_get fixture_data "away_score" VNone
  ∧ fx_venue r = dict_get fixture_data "venue" VNone
  ∧ fx_referee_id r = dict_get fixture_data "referee_id" VNone.

(** The logo reference is an owned-storage one. *)
Definition owned_logo (E : env) (r : team_row) : bool :=
  match tm_logo_url r with
  | VStr u => startswith (R2_PUBLIC_URL E +:+ "/") u
  | _ => false
  end.

(** A nested object is tolerated when it is absent or is an object. *)
Definition absent_or_dict (kvs : list (string * value)) (k : string) : bool :=
  match assoc k kvs with
  | None | Some (VDict _) => true
  | Some _ => false
  end.

(** The entries of the nested object [k], none when it is absent. *)
Definition nested (kvs : list (string * value)) (k : string) : list (string * value) :=
  match assoc k kvs with
  | Some (VDict d) => d
  | _ => []
  end.

(** The payloads whose nested objects, where present, are objects:
    [fixture], [league], [teams], [goals] at the top, [status] and
    [venue] inside [fixture], [home] and [away] inside [teams]. *)
Definition well_nested (fixture_data : value) : bool :=
  match fixture_data with
  | VDict kvs =>
      absent_or_dict kvs "fixture" && absent_or_dict kvs "league"
      && absent_or_dict kvs "teams" && absent_or_dict kvs "goals"
      && absent_or_dict (nested kvs "teams") "home"
      && absent_or_dict (nested kvs "teams") "away"
      && absent_or_dict (nested kvs "fixture") "status"
      && absent_or_dict (nested kvs "fixture") "venue"
  | _ => false
  end.

(** The entry [get_stat] settles on: the first one whose [type] is the
    target. *)
Definition first_match (entries : list (list (string * value))) (stat_type : string)
  : option (list (string * value)) :=
  List.find (λ e, type_is (dict_get e "type" VNone) stat_type) entries.

Definition has_percent (v : value) : bool :=
  match v with
  | VStr s => contains "%" s
  | _ => false
  end.

(** The number a string of decimal digits denotes. *)
Definition decimal (ds : list ascii) : Z :=
  fold_left (λ acc c, 10 * acc + digit_val c) ds 0.

(** The id under which a payload's fixture is stored. *)
Definition fixture_key (fixture_data : value) : option string :=
  match map_fixture fixture_data with
  | Ok (obj, _) =>
      match dict_get obj "id" VNone with
      | VStr id => Some id
      | _ => None
      end
  | Raise _ => None
  end.




(** From [w] to [w'] the bucket only gained objects, and every
    [put_object] in between was for a key that the bucket did not hold
    yet, each such key once. *)
Definition mirrors_once (w w' : world) : Prop :=
  ∃ new : list string, puts w' = (new ++ puts w)%list
    ∧ NoDup new
    ∧ (∀ k, k ∈ new → bucket w !! k = None ∧ is_Some (bucket w' !! k))
    ∧ (∀ k, is_Some (bucket w !! k) → is_Some (bucket w' !! k)).

(** A row passes the filters that were supplied. *)
Definition passes (E : env) (date_from date_to league_id status : option string)
    (r : fixture_row) : Prop :=
  (∀ s, supplied date_from = Some s →
        fx_match_date r ≠ VNone ∧ match_date_le E (VStr s) (fx_match_date r) = true)
  ∧ (∀ s, supplied date_to = Some s →
        fx_match_date r ≠ VNone ∧ match_date_le E (fx_match_date r) (VStr s) = true)
  ∧ (∀ s, supplied league_id = Some s → fx_league_id r = VStr s)
  ∧ (∀ s, supplied status = Some s → fx_status r = VStr s).

(** The team row with another logo reference. *)
Definition with_logo (logo : value) (r : team_row) : team_row :=
  {| tm_name := tm_name r; tm_logo_url := logo; tm_country := tm_country r;
     tm_league_id := tm_league_id r; tm_founded := tm_founded r;
     tm_venue := tm_venue r; tm_created_at := tm_created_at r |}.

(** The row [upsert_fixture] writes, given what the id held. *)
Definition upserted_fixture (now : Z) (fixture_data : list (string * value))
    (held : option fixture_row) : fixture_row :=
  match held with
  | Some old => merged_fixture now fixture_data old
  | None => fresh_fixture now fixture_data
  end.

(** From [w] to [w'] no row of [fixtures] or [teams] went away, and
    nothing outside these two tables changed. *)
Definition only_adds_rows (w w' : world) : Prop :=
  dom (fixtures w) ⊆ dom (fixtures w')
  ∧ dom (teams w) ⊆ dom (teams w')
  ∧ fixture_stats w' = fixture_stats w
  ∧ bucket w' = bucket w
  ∧ puts w' = puts w
  ∧ clock w' = clock w.

(** The league list [sync_fixtures] works through. *)
Definition effective_leagues (leagues : option (list string)) : list string :=
  match leagues with
  | Some (l :: ls) => l :: ls
  | _ => default_leagues
  end.

(** The fixtures a league's request yields for the loop: the items of
    the [response] entry, none when the request or the entry fails. *)
Definition league_items (E : env) (date_from date_to league_id : string) : list value :=
  match
    and_then (fixtures_endpoint E league_id date_from date_to) (λ data,
    and_then (get data "response" (VList [])) iter)
  with
  | Ok items => items
  | Raise _ => []
  end.

(** The store takes a write to the row. *)
Definition accepts (E : env) (table key : string) : bool :=
  match store_refuses E table key with
  | None => true
  | Some _ => false
  end.

(** The store takes the write, if any, that [_save_team] makes for a
    payload. *)
Definition team_accepted (E : env) (team_data : value) : bool :=
  match written_team team_data with
  | Some id => accepts E "teams" id
  | None => true
  end.

(** The side [k] of the [teams] object of a payload, as
    [teams.get(k)] gives it. *)
Definition side (teams : value) (k : string) : value :=
  match teams with
  | VDict tk => dict_get tk k VNone
  | _ => VNone
  end.

(** A payload is saved: it maps, and the store takes its fixture row and
    the rows of its two teams. *)
Definition saves (E : env) (fixture_data : value) : bool :=
  match map_fixture fixture_data with
  | Ok (fixture_obj, teams) =>
      accepts E "fixtures" (str (dict_get fixture_obj "id" VNone))
      && team_accepted E (side teams "home")
      && team_accepted E (side teams "away")
  | Raise _ => false
  end.

(** How many payloads at the head of a batch are saved. *)
Fixpoint saved_prefix (E : env) (items : list value) : nat :=
  match items with
  | [] => 0
  | x :: rest => if saves E x then S (saved_prefix E rest) else 0
  end.

(** Nothing of a batch gets as far as the store: the batch is empty or
    its first payload does not map. *)
Definition stops_before_store (items : list value) : bool :=
  match items with
  | [] => true
  | x :: _ => negb (is_ok (map_fixture x))
  end.

(** The object keys of the three kinds of assets. *)
Definition team_key (team_id : string) : string := "teams/" +:+ team_id +:+ ".png".
Definition player_key (player_id : string) : string := "players/" +:+ player_id +:+ ".png".
Definition league_key (league_id : string) : string := "leagues/" +:+ league_id +:+ ".png".

(** The columns of a statistics record, in the order of the dict. *)
Definition stat_columns : list string :=
  [ "home_xg"; "away_xg"; "home_possession"; "away_possession";
    "home_shots"; "away_shots"; "home_shots_on_target"; "away_shots_on_target";
    "home_corners"; "away_corners"; "home_fouls"; "away_fouls" ].

(** From [w] to [w'] the [teams] table kept its rows, each either as it
    was or with its logo set to the owned URL of its id; the other tables
    and the clock are as they were. *)
Definition only_promotes_logos (E : env) (w w' : world) : Prop :=
  (∀ id, teams w' !! id = teams w !! id
         ∨ ∃ r, teams w !! id = Some r
                ∧ teams w' !! id
                  = Some (with_logo (VStr (get_public_url E (team_key id))) r))
  ∧ fixtures w' = fixtures w
  ∧ fixture_stats w' = fixture_stats w
  ∧ clock w' = clock w.

(** Every run of [c] takes a world to one related to it by [R]. *)
Definition keeps {A} (R : world → world → Prop) (c : M A) : Prop :=
  ∀ w, R w (exec c w).

(** The count [sync_fixtures] returns: league by league, the fixtures
    ahead of the first one that is not saved. *)
Definition counted_fixtures (E : env) (date_from date_to : string)
    (leagues : option (list string)) : nat :=
  sum_list_with (λ league_id, saved_prefix E (league_items E date_from date_to league_id))
                (effective_leagues leagues).

(** A fresh transfer of [url] to [key] goes through: the download
    answers and the bucket accepts the object. *)
Definition transfers (E : env) (url key : string) : bool :=
  is_ok (download E url) && put_object_ok E key.

(** From [w] to [w'] nothing but the bucket entry of [key] (and the
    record of uploads) may have changed. *)
Definition only_touches_key (key : string) (w w' : world) : Prop :=
  (∀ k, k ≠ key → bucket w' !! k = bucket w !! k)
  ∧ fixtures w' = fixtures w ∧ teams w' = teams w
  ∧ fixture_stats w' = fixture_stats w ∧ clock w' = clock w.

(** *** Sample data *)

Module Sample.

(** The record of the connectivity script. *)
Definition test_fixture : list (string * value) :=
  [ ("id", VStr "test_12345"); ("league_id", VStr "39");
    ("home_team_id", VStr "33"); ("away_team_id", VStr "34");
    ("match_date", VStr "2025-10-29T19:00:00Z"); ("status", VStr "NS") ].

(** The same fixture after a reschedule, played and finished. *)
Definition test_fixture_later : list (string * value) :=
  [ ("id", VStr "test_12345"); ("league_id", VStr "39");
    ("home_team_id", VStr "33"); ("away_team_id", VStr "34");
    ("match_date", VStr "2025-11-12T19:00:00Z"); ("status", VStr "FT");
    ("home_score", VInt 2); ("away_score", VInt 1);
    ("venue", VStr "Old Trafford"); ("referee_id", VStr "M. Oliver") ].

Definition stats_at_half_time : list (string * value) :=
  [ ("home_xg", VNone); ("away_xg", VNone);
    ("home_possession", VInt 55); ("away_possession", VInt 45);
    ("home_shots", VInt 6); ("away_shots", VInt 4);
    ("home_shots_on_target", VInt 2); ("away_shots_on_target", VInt 1);
    ("home_corners", VInt 3); ("away_corners", VInt 1);
    ("home_fouls", VInt 5); ("away_fouls", VInt 7) ].

Definition stats_at_full_time : list (string * value) :=
  [ ("home_xg", VNone); ("away_xg", VNone);
    ("home_possession", VInt 58); ("away_possession", VInt 42);
    ("home_shots", VInt 14); ("away_shots", VInt 9);
    ("home_shots_on_target", VInt 6); ("away_shots_on_target", VInt 3);
    ("home_corners", VInt 8); ("away_corners", VInt 2);
    ("home_fouls", VInt 11); ("away_fouls", VInt 13) ].

Definition team_payload (id : Z) (name : string) : value :=
  VDict [ ("id", VInt id); ("name", VStr name);
          ("logo", VStr ("https://media.api-sports.io/football/teams/" +:+ pretty id +:+ ".png")) ].

Definition fixture_payload (id : Z) (home away : value) : value :=
  VDict [ ("fixture", VDict [ ("id", VInt id); ("referee", VNone);
                              ("date", VStr "2025-10-01T19:00:00+00:00");
                              ("venue", VDict [("id", VInt 556); ("name", VStr "Old Trafford")]);
                              ("status", VDict [("long", VStr "Not Started"); ("short", VStr "NS")]) ]);
          ("league", VDict [ ("id", VInt 39); ("season", VInt 2024) ]);
          ("teams", VDict [ ("home", home); ("away", away) ]);
          ("goals", VDict [ ("home", VNone); ("away", VNone) ]) ].

Definition united : value := team_payload 33 "Manchester United".
Definition newcastle : value := team_payload 34 "Newcastle".

(** A payload whose [fixture] entry is an explicit null. *)
Definition broken_payload : value :=
  VDict [ ("fixture", VNone); ("league", VDict [("id", VInt 39)]) ].

Definition batch_of_five : value :=
  VList [ fixture_payload 1 united newcastle;
          fixture_payload 2 newcastle united;
          broken_payload;
          fixture_payload 4 united newcastle;
          fixture_payload 5 newcastle united ].

(** ISO timestamps of one format and offset compare as the numbers
    their digits spell. *)
Definition date_key (v : value) : Z :=
  decimal (List.filter is_digit (list_ascii_of_string (str v))).

(** A cooperative outside world: every transfer succeeds, league 39
    answers with the batch above, statistics are still empty. *)
Definition calm : env :=
  {| R2_PUBLIC_URL := "https://cdn.golex.app";
     guess_type := λ _, Some "image/png";
     download := λ _, Ok (Some "image/png", "PNG");
     put_object_ok := λ _, true;
     fixtures_endpoint := λ league _ _,
       if String.eqb league "39" then Ok (VDict [("response", batch_of_five)])
       else Raise HTTPError;
     statistics_endpoint := λ _, Ok (VDict [("results", VInt 0); ("response", VList [])]);
     match_date_le := λ a b, bool_decide (date_key a ≤ date_key b);
     store_refuses := λ _ _, None |}.

(** The same outside world during an outage: no request gets an
    answer. *)
Definition down : env :=
  {| R2_PUBLIC_URL := R2_PUBLIC_URL calm;
     guess_type := guess_type calm;
     download := λ _, Raise HTTPError;
     put_object_ok := λ _, false;
     fixtures_endpoint := λ _ _ _, Raise HTTPError;
     statistics_endpoint := λ _, Raise HTTPError;
     match_date_le := match_date_le calm;
     store_refuses := store_refuses calm |}.

(** The cooperative outside world, except that the store refuses every
    write to the team row of Newcastle. *)
Definition flaky : env :=
  {| R2_PUBLIC_URL := R2_PUBLIC_URL calm;
     guess_type := guess_type calm;
     download := download calm;
     put_object_ok := put_object_ok calm;
     fixtures_endpoint := fixtures_endpoint calm;
     statistics_endpoint := statistics_endpoint calm;
     match_date_le := match_date_le calm;
     store_refuses := λ table key,
       if String.eqb table "teams" && String.eqb key "34" then Some PostgresError
       else None |}.

End Sample.

(** * Properties *)

(** ** Upserts of the relational store *)

Section Upserts.

Implicit Types (w : world) (id : string).

Lemma upsert_fixture_insert w fixture_data id :
  dict_get fixture_data "id" VNone = VStr id →
  fixtures w !! id = None →
  upsert_fixture fixture_data w =
    (Ok tt, set_fixtures (<[id := fresh_fixture (clock w) fixture_data]> (fixtures w)) w).
Proof.
  intros Hid Hnew. unfold upsert_fixture. rewrite Hid. cbn. by rewrite Hnew.
Qed.

Lemma upsert_fixture_update w fixture_data id old :
  dict_get fixture_data "id" VNone = VStr id →
  fixtures w !! id = Some old →
  upsert_fixture fixture_data w =
    (Ok tt, set_fixtures (<[id := merged_fixture (clock w) fixture_data old]> (fixtures w)) w).
Proof.
  intros Hid Hold. unfold upsert_fixture. rewrite Hid. cbn. by rewrite Hold.
Qed.

Lemma upsert_fixture_bad_key w fixture_data :
  (∀ id, dict_get fixture_data "id" VNone ≠ VStr id) →
  upsert_fixture fixture_data w = (Raise PostgresError, w).
Proof.
  intros Hid. unfold upsert_fixture.
  destruct (dict_get fixture_data "id" VNone); cbn; try done.
  by destruct (Hid s).
Qed.

End Upserts.

Section FixtureUpsert.

Import Sample.

(** C3, as stated, fails: an update of an existing fixture leaves the
    scheduled timestamp, venue and referee of the stored row as they were,
    so the row does not carry the new payload's values. *)
Lemma upsert_fixture_keeps_stale_columns :
  let w1 := exec (upsert_fixture test_fixture) empty_world in
  let w2 := exec (upsert_fixture test_fixture_later) w1 in
  ∃ r, fixtures w2 !! "test_12345" = Some r
       ∧ fx_match_date r = VStr "2025-10-29T19:00:00Z"
       ∧ fx_venue r = VNone
       ∧ ¬ carries_payload test_fixture_later r.
Proof.
  eexists. split; [vm_compute; reflexivity|].
  cbn. repeat split. unfold carries_payload. cbn. intros (_ & _ & _ & H & _). discriminate H.
Qed.

(** C3, amended: for every payload and every existing row with the same
    id, [upsert_fixture] succeeds and leaves under that id the old row with
    status and both scores replaced by the payload's values and the
    update time set to the statement's time; league, teams, scheduled
    timestamp, venue and referee keep the stored values, and no other row
    changes. *)
Theorem upsert_fixture_replaces_status_and_scores
    (w : world) (fixture_data : list (string * value)) (id : string) (old : fixture_row) :
  dict_get fixture_data "id" VNone = VStr id →
  fixtures w !! id = Some old →
  let w' := exec (upsert_fixture fixture_data) w in
  eval (upsert_fixture fixture_data) w = Ok tt
  ∧ (∃ r, fixtures w' !! id = Some r
       ∧ fx_status r = dict_get fixture_data "status" VNone
       ∧ fx_home_score r = dict_get fixture_data "home_score" VNone
       ∧ fx_away_score r = dict_get fixture_data "away_score" VNone
       ∧ fx_updated_at r = clock w
       ∧ fx_league_id r = fx_league_id old
       ∧ fx_home_team_id r = fx_home_team_id old
       ∧ fx_away_team_id r = fx_away_team_id old
       ∧ fx_match_date r = fx_match_date old
       ∧ fx_venue r = fx_venue old
       ∧ fx_referee_id r = fx_referee_id old)
  ∧ (∀ id', id' ≠ id → fixtures w' !! id' = fixtures w !! id').
Proof.
  intros Hid Hold w'. subst w'. unfold exec, eval.
  rewrite (upsert_fixture_update _ _ _ _ Hid Hold). cbn.
  split; [done|]. split.
  - eexists. rewrite lookup_insert_eq. split; [done|]. by cbn.
  - intros id' Hne. by rewrite lookup_insert_ne.
Qed.

Lemma upsert_fixture_replaces_status_and_scores_witness :
  let w1 := exec (upsert_fixture test_fixture) empty_world in
  ∃ r, fixtures (exec (upsert_fixture test_fixture_later) w1) !! "test_12345" = Some r
       ∧ fx_status r = VStr "FT" ∧ fx_match_date r = VStr "2025-10-29T19:00:00Z".
Proof.
  intros w1.
  destruct (upsert_fixture_replaces_status_and_scores w1 test_fixture_later "test_12345"
              (fresh_fixture 0 test_fixture))
    as (_ & (r & Hr & Hst & _ & _ & _ & _ & _ & _ & Hmd & _) & _).
  - reflexivity.
  - vm_compute. reflexivity.
  - exists r. split; [exact Hr|]. split; [exact Hst | exact Hmd].
Defined.

End FixtureUpsert.

Section FixtureIdempotence.

Import Sample.

(** The state of the [fixtures] table after one upsert. *)
Lemma upsert_fixture_lookup (w : world) fixture_data id :
  dict_get fixture_data "id" VNone = VStr id →
  ∃ r, upsert_fixture fixture_data w = (Ok tt, set_fixtures (<[id := r]> (fixtures w)) w)
       ∧ merged_fixture (clock w) fixture_data r = touch (clock w) r
       ∧ fx_updated_at r = clock w.
Proof.
  intros Hid. destruct (fixtures w !! id) as [old|] eqn:Hrow.
  - exists (merged_fixture (clock w) fixture_data old).
    by rewrite (upsert_fixture_update _ _ _ _ Hid Hrow).
  - exists (fresh_fixture (clock w) fixture_data).
    by rewrite (upsert_fixture_insert _ _ _ Hid Hrow).
Qed.

(** C7, as stated, fails: the second application of the same record, one
    tick of the database clock later, rewrites [updated_at], so the stored
    row is not the row a single upsert produced. *)
Lemma second_upsert_rewrites_updated_at :
  let w1 := exec (upsert_fixture test_fixture) empty_world in
  let w2 := exec (upsert_fixture test_fixture) (elapse 1 w1) in
  fixtures w2 !! "test_12345" ≠ fixtures w1 !! "test_12345"
  ∧ (fx_updated_at <$> fixtures w1 !! "test_12345") = Some 0
  ∧ (fx_updated_at <$> fixtures w2 !! "test_12345") = Some 1.
Proof. vm_compute. repeat split; congruence. Qed.

(** C7, amended: applying [upsert_fixture] twice with the identical record
    leaves the table with the same ids as a single upsert (one row for
    the record's id), and that row equals the single upsert's row in
    every column except [updated_at], which holds the time of the second
    statement; the second application succeeds and touches nothing else.
    When no time passes between the two statements the table is
    unchanged. *)
Theorem upsert_fixture_twice
    (w : world) (fixture_data : list (string * value)) (id : string) (dt : Z) :
  dict_get fixture_data "id" VNone = VStr id →
  let w1 := exec (upsert_fixture fixture_data) w in
  let w2 := exec (upsert_fixture fixture_data) (elapse dt w1) in
  eval (upsert_fixture fixture_data) (elapse dt w1) = Ok tt
  ∧ (∃ r1, fixtures w1 !! id = Some r1
         ∧ fixtures w2 = <[id := touch (clock w + dt) r1]> (fixtures w1))
  ∧ dom (fixtures w2) = dom (fixtures w1)
  ∧ teams w2 = teams w1 ∧ fixture_stats w2 = fixture_stats w1 ∧ bucket w2 = bucket w1
  ∧ (dt = 0 → fixtures w2 = fixtures w1).
Proof.
  intros Hid w1 w2.
  destruct (upsert_fixture_lookup w fixture_data id Hid) as (r1 & Hrun & Hagain & Hat).
  assert (Hw1 : w1 = set_fixtures (<[id := r1]> (fixtures w)) w)
    by (subst w1; unfold exec; by rewrite Hrun).
  assert (Hrow : fixtures (elapse dt w1) !! id = Some r1)
    by (rewrite Hw1; cbn; apply lookup_insert_eq).
  assert (Hmerge : merged_fixture (clock w + dt) fixture_data r1 = touch (clock w + dt) r1)
    by (injection Hagain as H1 H2 H3; unfold merged_fixture, touch; by rewrite H1, H2, H3).
  assert (Hw2 : upsert_fixture fixture_data (elapse dt w1)
                = (Ok tt, set_fixtures (<[id := touch (clock w + dt) r1]> (fixtures w1))
                            (elapse dt w1))).
  { rewrite (upsert_fixture_update _ _ _ _ Hid Hrow).
    replace (clock (elapse dt w1)) with (clock w + dt) by (rewrite Hw1; reflexivity).
    by rewrite Hmerge. }
  subst w2. unfold exec, eval. rewrite Hw2. cbn.
  split; [done|]. split.
  { exists r1. split; [|done]. rewrite Hw1. cbn. apply lookup_insert_eq. }
  split.
  { apply dom_insert_lookup_L. rewrite Hw1. cbn. rewrite lookup_insert_eq. by eexists. }
  split; [done|]. split; [done|]. split; [done|].
  intros ->. apply insert_id. rewrite Hw1. cbn. rewrite lookup_insert_eq. f_equal.
  destruct r1; cbn in *. subst. unfold touch. cbn. f_equal. lia.
Qed.

Lemma upsert_fixture_twice_witness :
  let w1 := exec (upsert_fixture Sample.test_fixture) empty_world in
  let w2 := exec (upsert_fixture Sample.test_fixture) (elapse 1 w1) in
  dom (fixtures w2) = dom (fixtures w1).
Proof.
  intros w1 w2.
  exact (proj1 (proj2 (proj2
    (upsert_fixture_twice empty_world Sample.test_fixture "test_12345" 1 eq_refl)))).
Defined.

End FixtureIdempotence.

Section StatsUpsert.

Import Sample.

(** What an [upsert_fixture_stats] leaves when the fixture already has a
    row: the six columns named in DO UPDATE SET come from the new record,
    the six others stay. *)
Lemma upsert_fixture_stats_update (w : world) fixture_id stats old :
  fixture_stats w !! fixture_id = Some old →
  ∃ r, fixture_stats (exec (upsert_fixture_stats fixture_id stats) w) !! fixture_id = Some r
       ∧ st_home_possession r = dict_get stats "home_possession" VNone
       ∧ st_away_possession r = dict_get stats "away_possession" VNone
       ∧ st_home_shots r = dict_get stats "home_shots" VNone
       ∧ st_away_shots r = dict_get stats "away_shots" VNone
       ∧ st_home_shots_on_target r = st_home_shots_on_target old
       ∧ st_away_shots_on_target r = st_away_shots_on_target old
       ∧ st_home_corners r = st_home_corners old
       ∧ st_away_corners r = st_away_corners old
       ∧ st_home_fouls r = st_home_fouls old
       ∧ st_away_fouls r = st_away_fouls old.
Proof.
  intros Hold. unfold exec, upsert_fixture_stats. rewrite Hold. cbn.
  eexists. rewrite lookup_insert_eq. split; [done|]. by cbn.
Qed.

(** C4 at a failing input: the half-time statistics of a fixture are
    stored, then the full-time statistics are upserted.  Possession and
    shots follow, while shots on target, corners and fouls still show
    the half-time figures. *)
Lemma upsert_fixture_stats_keeps_half_time_corners :
  let w1 := exec (upsert_fixture_stats "867946" stats_at_half_time) empty_world in
  let w2 := exec (upsert_fixture_stats "867946" stats_at_full_time) w1 in
  ∃ r, fixture_stats w2 !! "867946" = Some r
       ∧ st_home_shots r = VInt 14
       ∧ dict_get stats_at_full_time "home_shots_on_target" VNone = VInt 6
       ∧ st_home_shots_on_target r = VInt 2
       ∧ dict_get stats_at_full_time "home_corners" VNone = VInt 8
       ∧ st_home_corners r = VInt 3
       ∧ dict_get stats_at_full_time "away_fouls" VNone = VInt 13
       ∧ st_away_fouls r = VInt 7.
Proof. eexists. split; [vm_compute; reflexivity|]. by cbn. Qed.

End StatsUpsert.

Section TeamUpsert.

Import Sample.

(** On a conflict [upsert_team] stores the payload's logo, whatever the
    row held. *)
Lemma upsert_team_overwrites_logo (w : world) team_data id old :
  dict_get team_data "id" VNone = VStr id →
  teams w !! id = Some old →
  (tm_logo_url <$> teams (exec (upsert_team team_data) w) !! id)
  = Some (dict_get team_data "logo_url" VNone).
Proof.
  intros Hid Hold. unfold exec, upsert_team. rewrite Hid. cbn. rewrite Hold. cbn.
  by rewrite lookup_insert_eq.
Qed.

(** C1 at a failing input: a fixture is saved, the logo backfill moves
    both team logos to owned storage, and the next fixture of the same
    teams is saved.  The team row is back on the upstream URL. *)
Lemma save_team_reverts_owned_logo :
  let w1 := exec (_save_fixture calm (fixture_payload 1 united newcastle)) empty_world in
  let w2 := exec (sync_team_logos calm 50) w1 in
  let w3 := exec (_save_team united) w2 in
  (owned_logo calm <$> teams w2 !! "33") = Some true
  ∧ (tm_logo_url <$> teams w2 !! "33") = Some (VStr "https://cdn.golex.app/teams/33.png")
  ∧ (owned_logo calm <$> teams w3 !! "33") = Some false
  ∧ (tm_logo_url <$> teams w3 !! "33")
    = Some (VStr "https://media.api-sports.io/football/teams/33.png").
Proof. vm_compute. done. Qed.

End TeamUpsert.

(** ** The record mapper *)

Section RecordMapper.

Import Sample.

Ltac by_key k :=
  try match goal with
  | |- context [assoc k ?kvs] =>
      let H := fresh "Hkey" in
      destruct (assoc k kvs) as [[]|] eqn:H; cbn;
      rewrite ?andb_false_r, ?andb_true_r; cbn; try reflexivity; try discriminate
  end.

Lemma map_fixture_ok_iff_well_nested (fixture_data : value) :
  is_ok (map_fixture fixture_data) = well_nested fixture_data.
Proof.
  destruct fixture_data as [| | | | | |kvs]; try reflexivity.
  unfold map_fixture, well_nested, absent_or_dict, nested, get, dict_get. cbn.
  by_key "fixture"; by_key "league"; by_key "teams"; by_key "goals";
    by_key "home"; by_key "away"; by_key "status"; by_key "venue".
Qed.

(** C6, as stated, fails twice over: a payload whose [fixture] entry is
    an explicit null makes the mapping raise, and on the empty payload
    the four id fields come out as the text "None" and the status as
    "NS" rather than as nulls. *)
Lemma map_fixture_raises_on_null_object :
  map_fixture broken_payload = Raise AttributeError
  ∧ ∃ obj teams, map_fixture (VDict []) = Ok (obj, teams)
      ∧ dict_get obj "id" VNone = VStr "None"
      ∧ dict_get obj "home_team_id" VNone = VStr "None"
      ∧ dict_get obj "status" VNone = VStr "NS".
Proof. split; [reflexivity|]. do 2 eexists. split; [reflexivity|]. by cbn. Qed.

Lemma and_then_raise {A B} (r : result A) (k : A → result B) (e : exn) :
  and_then r k = Raise e → r = Raise e ∨ ∃ a, r = Ok a ∧ k a = Raise e.
Proof.
  destruct r as [a|e']; cbn; intros H.
  - right. by exists a.
  - left. by injection H as ->.
Qed.

Lemma get_raises (x : value) k dflt (e : exn) :
  get x k dflt = Raise e → e = AttributeError.
Proof. destruct x; cbn; congruence. Qed.

(** The only exception the mapping step raises is the one of [.get] on
    something that is not a dict. *)
Lemma map_fixture_raises_attribute_error (fixture_data : value) (e : exn) :
  map_fixture fixture_data = Raise e → e = AttributeError.
Proof.
  unfold map_fixture. intros H.
  repeat match goal with
  | H : and_then _ _ = Raise _ |- _ =>
      apply and_then_raise in H as [H | (? & _ & H)]; cbn beta in H
  | H : get _ _ _ = Raise _ |- _ => exact (get_raises _ _ _ _ H)
  | H : Ok _ = Raise _ |- _ => discriminate H
  end.
Qed.

(** C6, amended: the mapping step returns a record exactly for the
    payloads that are objects whose nested objects ([fixture], [league],
    [teams], [goals], and [status], [venue], [home], [away] below them)
    are each absent or an object, and raises [AttributeError] for the
    others.  On such a payload an absent [fixture] maps the scheduled
    timestamp, venue and referee to null and the status to the default
    "NS", and an absent [goals] maps both scores to null. *)
Theorem map_fixture_tolerates_absent_objects (fixture_data : value) :
  (well_nested fixture_data = false → map_fixture fixture_data = Raise AttributeError)
  ∧ (∀ kvs, fixture_data = VDict kvs → well_nested fixture_data = true →
       ∃ obj teams, map_fixture fixture_data = Ok (obj, teams)
         ∧ (assoc "fixture" kvs = None →
              dict_get obj "match_date" VNone = VNone
              ∧ dict_get obj "venue" VNone = VNone
              ∧ dict_get obj "referee_id" VNone = VNone
              ∧ dict_get obj "status" VNone = VStr "NS")
         ∧ (assoc "goals" kvs = None →
              dict_get obj "home_score" VNone = VNone
              ∧ dict_get obj "away_score" VNone = VNone)).
Proof.
  pose proof (map_fixture_ok_iff_well_nested fixture_data) as Hiff.
  split.
  - intros Hbad. rewrite Hbad in Hiff.
    destruct (map_fixture fixture_data) as [?|e] eqn:Hmap; [done|].
    by rewrite (map_fixture_raises_attribute_error _ _ Hmap).
  - intros kvs -> Hshape. rewrite Hshape in Hiff.
    destruct (map_fixture (VDict kvs)) as [[obj teams]|] eqn:Hmap; [|done].
    exists obj, teams. split; [done|]. clear Hiff Hshape. revert Hmap.
    unfold map_fixture, get, dict_get. cbn.
    intros Hmap. split.
    + intros Hfix. revert Hmap. rewrite Hfix. cbn.
      by_key "league"; by_key "teams"; by_key "goals"; by_key "home"; by_key "away";
        intros [= <- _]; by cbn.
    + intros Hgoals. revert Hmap. rewrite Hgoals. cbn.
      by_key "fixture"; by_key "league"; by_key "teams"; by_key "home"; by_key "away";
        by_key "status"; by_key "venue"; intros [= <- _]; by cbn.
Qed.

Lemma map_fixture_tolerates_absent_objects_witness :
  map_fixture Sample.broken_payload = Raise AttributeError
  ∧ ∃ obj teams,
      map_fixture (VDict [("league", VDict [("id", VInt 39)])]) = Ok (obj, teams)
      ∧ dict_get obj "match_date" VNone = VNone
      ∧ dict_get obj "home_score" VNone = VNone.
Proof.
  split.
  - exact (proj1 (map_fixture_tolerates_absent_objects Sample.broken_payload) eq_refl).
  - destruct (proj2 (map_fixture_tolerates_absent_objects
                       (VDict [("league", VDict [("id", VInt 39)])])) _ eq_refl eq_refl)
      as (obj & teams & Hmap & Hfixture & Hgoals).
    exists obj, teams. split; [exact Hmap|].
    split; [exact (proj1 (Hfixture eq_refl)) | exact (proj1 (Hgoals eq_refl))].
Defined.

End RecordMapper.

(** ** The stat extractor *)

Section StatExtractor.

Lemma digit_not_special (c : ascii) :
  is_digit c = true →
  is_space c = false ∧ Ascii.eqb c "-" = false ∧ Ascii.eqb c "+" = false
  ∧ Ascii.eqb "%" c = false.
Proof.
  destruct c as [[] [] [] [] [] [] [] []]; vm_compute; intros; try discriminate; done.
Qed.

Lemma lstrip_digit (c : ascii) (s : list ascii) :
  is_digit c = true → lstrip (c :: s) = c :: s.
Proof. intros Hc. cbn. by destruct (digit_not_special c Hc) as (-> & _). Qed.

Lemma strip_digits (ds : list ascii) :
  forallb is_digit ds = true → strip ds = ds.
Proof.
  intros Hds. unfold strip.
  assert (Hl : lstrip ds = ds).
  { destruct ds as [|c ds]; [done|]. cbn in Hds. apply andb_prop in Hds as [Hc _].
    by apply lstrip_digit. }
  rewrite Hl.
  assert (Hr : lstrip (rev ds) = rev ds).
  { destruct (rev ds) as [|c rs] eqn:Hrev; [done|].
    apply lstrip_digit.
    assert (Hin : In c ds) by (apply in_rev; rewrite Hrev; by left).
    rewrite forallb_forall in Hds. by apply Hds. }
  rewrite Hr. apply rev_involutive.
Qed.

Lemma digits_all (ds : list ascii) :
  forallb is_digit ds = true → ds ≠ [] →
  ∀ acc count b,
    digits acc count b ds
    = Some (fold_left (λ acc c, 10 * acc + digit_val c) ds acc, (count + List.length ds)%nat).
Proof.
  induction ds as [|c ds IH]; [done|].
  intros Hds _ acc count b. cbn in Hds. apply andb_prop in Hds as [Hc Hds].
  cbn [digits fold_left List.length]. rewrite Hc.
  destruct ds as [|c' ds'].
  - cbn. do 2 f_equal. lia.
  - rewrite IH; [|done|done]. do 2 f_equal. cbn [List.length]. lia.
Qed.

Lemma int_of_str_digits (ds : list ascii) :
  forallb is_digit ds = true → ds ≠ [] →
  Z.of_nat (List.length ds) ≤ int_max_str_digits →
  int_of_str (string_of_list_ascii ds) = Ok (decimal ds).
Proof.
  intros Hds Hne Hlen. unfold int_of_str.
  rewrite list_ascii_of_string_of_list_ascii, (strip_digits _ Hds).
  destruct ds as [|c ds'] eqn:Hshape; [done|].
  assert (Hc : is_digit c = true) by (cbn in Hds; by apply andb_prop in Hds as [? _]).
  destruct (digit_not_special c Hc) as (_ & -> & -> & _).
  rewrite <- Hshape in *. rewrite (digits_all ds Hds Hne 0 0%nat false).
  cbn [Nat.add]. destruct (Z.ltb_spec int_max_str_digits (Z.of_nat (List.length ds))); [lia|].
  reflexivity.
Qed.

Lemma remove_percent_digits (ds : list ascii) :
  forallb is_digit ds = true →
  remove_char "%" (string_of_list_ascii ds +:+ "%") = string_of_list_ascii ds
  ∧ contains "%" (string_of_list_ascii ds +:+ "%") = true.
Proof.
  induction ds as [|c ds IH]; [done|].
  intros Hds. cbn in Hds. apply andb_prop in Hds as [Hc Hds].
  destruct (IH Hds) as [IH1 IH2].
  cbn [string_of_list_ascii].
  change (String c (string_of_list_ascii ds) +:+ "%")
    with (String c (string_of_list_ascii ds +:+ "%")).
  cbn [remove_char contains].
  destruct (digit_not_special c Hc) as (_ & _ & _ & ->).
  by rewrite IH1, IH2.
Qed.

Lemma normalize_digits (ds : list ascii) :
  forallb is_digit ds = true → ds ≠ [] →
  Z.of_nat (List.length ds) ≤ int_max_str_digits →
  normalize (VStr (string_of_list_ascii ds +:+ "%")) = Ok (VInt (decimal ds)).
Proof.
  intros Hds Hne Hlen. unfold normalize.
  destruct (remove_percent_digits ds Hds) as [-> ->].
  by rewrite int_of_str_digits.
Qed.

Lemma int_of_str_raises (s : string) :
  is_ok (int_of_str s) = false → int_of_str s = Raise ValueError.
Proof.
  unfold int_of_str.
  destruct (match strip (list_ascii_of_string s) with [] => _ | _ => _ end) as [neg body].
  destruct (digits 0 0 false body) as [[n count]|]; [|done].
  by destruct (int_max_str_digits <? Z.of_nat count).
Qed.

(** On a list of entries, [get_stat] is the normalized value of the
    first match, and [None] when there is none. *)
Lemma get_stat_first_match (entries : list (list (string * value))) (stat_type : string) :
  get_stat (VList (map VDict entries)) stat_type =
  match first_match entries stat_type with
  | Some e => normalize (dict_get e "value" VNone)
  | None => Ok VNone
  end.
Proof.
  unfold get_stat, first_match. cbn.
  induction entries as [|e entries IH]; [done|].
  cbn. by destruct (type_is (dict_get e "type" VNone) stat_type).
Qed.

(** C5, as stated, fails: a percentage with a fractional part is neither
    normalized nor passed through; [get_stat] raises [ValueError]. *)
Lemma get_stat_raises_on_fractional_percentage :
  get_stat (VList [VDict [("type", VStr "Ball Possession"); ("value", VStr "63.5%")]])
           "Ball Possession"
  = Raise ValueError.
Proof. reflexivity. Qed.

(** C5, amended: for every list of [{type, value}] entries and every
    target type, [get_stat] settles on the first entry of that type.
    When there is none it returns [None] and does not raise.  A value
    that is not a string containing a percent sign is returned unchanged.
    A string containing a percent sign is returned as the integer that
    [int] reads from its text without the percent signs, so a non-empty
    string of at most 4300 decimal digits followed by a percent sign
    yields the number the digits spell; when [int] does not accept what
    remains, [get_stat] raises [ValueError]. *)
Theorem get_stat_contract (entries : list (list (string * value))) (stat_type : string) :
  let result := get_stat (VList (map VDict entries)) stat_type in
  (first_match entries stat_type = None → result = Ok VNone)
  ∧ ∀ e, first_match entries stat_type = Some e →
      let v := dict_get e "value" VNone in
      (has_percent v = false → result = Ok v)
      ∧ (∀ s n, v = VStr s → contains "%" s = true →
           int_of_str (remove_char "%" s) = Ok n → result = Ok (VInt n))
      ∧ (∀ ds, v = VStr (string_of_list_ascii ds +:+ "%") →
           forallb is_digit ds = true → ds ≠ [] →
           Z.of_nat (List.length ds) ≤ int_max_str_digits →
           result = Ok (VInt (decimal ds)))
      ∧ (∀ s, v = VStr s → contains "%" s = true →
           is_ok (int_of_str (remove_char "%" s)) = false → result = Raise ValueError).
Proof.
  intros result. subst result. rewrite get_stat_first_match.
  split; [by intros ->|].
  intros e -> v. subst v. repeat split.
  - unfold has_percent, normalize.
    destruct (dict_get e "value" VNone); try done. by intros ->.
  - intros s n -> Hpc Hint. unfold normalize. by rewrite Hpc, Hint.
  - intros ds -> Hds Hne Hlen. by apply normalize_digits.
  - intros s -> Hpc Hint. unfold normalize. rewrite Hpc.
    by rewrite (int_of_str_raises _ Hint).
Qed.

Lemma get_stat_contract_witness :
  get_stat (VList [VDict [("type", VStr "Ball Possession"); ("value", VStr "63%")]])
           "Ball Possession" = Ok (VInt 63)
  ∧ get_stat (VList [VDict [("type", VStr "Ball Possession"); ("value", VStr "63%")]])
           "Total Shots" = Ok VNone.
Proof.
  split.
  - apply (proj1 (proj2 (proj2 (proj2
      (get_stat_contract [[("type", VStr "Ball Possession"); ("value", VStr "63%")]]
                         "Ball Possession")
      [("type", VStr "Ball Possession"); ("value", VStr "63%")] eq_refl)))
      ["6"; "3"]%char eq_refl eq_refl).
    + discriminate.
    + vm_compute. discriminate.
  - apply (proj1 (get_stat_contract
      [[("type", VStr "Ball Possession"); ("value", VStr "63%")]] "Total Shots")).
    reflexivity.
Defined.

End StatExtractor.

(** ** Frames: what a coroutine leaves alone *)

Section Frames.

Lemma keeps_ret {A} (R : world → world → Prop) `{!Reflexive R} (a : A) : keeps R (ret a).
Proof. intros w. apply reflexivity. Qed.

Lemma keeps_lift {A} (R : world → world → Prop) `{!Reflexive R} (r : result A) :
  keeps R (lift r).
Proof. intros w. apply reflexivity. Qed.

Lemma keeps_bind {A B} (R : world → world → Prop) `{!Transitive R}
    (c : M A) (k : A → M B) :
  keeps R c → (∀ a, keeps R (k a)) → keeps R (bind c k).
Proof.
  intros Hc Hk w. specialize (Hc w). unfold exec, bind in *.
  destruct (c w) as [[a|e] w1]; cbn [snd] in *; [|done].
  etrans; [exact Hc|]. apply Hk.
Qed.

Lemma keeps_try_except {A} (R : world → world → Prop) `{!Transitive R}
    (c : M A) (h : exn → M A) :
  keeps R c → (∀ e, keeps R (h e)) → keeps R (try_except c h).
Proof.
  intros Hc Hh w. specialize (Hc w). unfold exec, try_except in *.
  destruct (c w) as [[a|e] w1]; cbn [snd] in *; [done|].
  etrans; [exact Hc|]. apply Hh.
Qed.

Lemma keeps_awaited {A} (R : world → world → Prop) `{!Reflexive R}
    (E : env) (table key : string) (c : M A) :
  keeps R c → keeps R (awaited E table key c).
Proof.
  intros Hc. unfold awaited. destruct (store_refuses E table key); [|done].
  intros w. apply reflexivity.
Qed.

Global Instance only_adds_rows_refl : Reflexive only_adds_rows.
Proof. intros w. by repeat split. Qed.

Global Instance only_adds_rows_trans : Transitive only_adds_rows.
Proof.
  intros w1 w2 w3 (Hf & Ht & Hs & Hb & Hp & Hc) (Hf' & Ht' & Hs' & Hb' & Hp' & Hc').
  repeat split; [by etrans | by etrans | congruence..].
Qed.

Lemma upsert_fixture_only_adds_rows fixture_data : keeps only_adds_rows (upsert_fixture fixture_data).
Proof.
  intros w. unfold exec, upsert_fixture.
  destruct (text_key _) as [id|]; [|reflexivity]. cbn [snd].
  repeat split; try done. cbn. rewrite dom_insert_L. apply union_subseteq_r.
Qed.

Lemma upsert_team_only_adds_rows team_data : keeps only_adds_rows (upsert_team team_data).
Proof.
  intros w. unfold exec, upsert_team.
  destruct (text_key _) as [id|]; [|reflexivity]. cbn [snd].
  repeat split; try done. cbn. rewrite dom_insert_L. apply union_subseteq_r.
Qed.

Lemma _save_team_only_adds_rows team_data : keeps only_adds_rows (_save_team team_data).
Proof.
  unfold _save_team. destruct (negb (truthy team_data)); [apply keeps_ret; apply _|].
  apply keeps_bind; [apply _ | apply keeps_lift; apply _ |].
  intros team_obj. apply upsert_team_only_adds_rows.
Qed.

Lemma awaited_save_team_only_adds_rows (E : env) team_data :
  keeps only_adds_rows (awaited_save_team E team_data).
Proof.
  unfold awaited_save_team. destruct (written_team team_data).
  - apply keeps_awaited; [apply _|]. apply _save_team_only_adds_rows.
  - apply _save_team_only_adds_rows.
Qed.

Lemma _save_fixture_only_adds_rows (E : env) fixture_data :
  keeps only_adds_rows (_save_fixture E fixture_data).
Proof.
  unfold _save_fixture.
  apply keeps_bind; [apply _ | apply keeps_lift; apply _ |]. intros [fixture_obj teams].
  apply keeps_bind;
    [apply _ | apply keeps_awaited; [apply _|]; apply upsert_fixture_only_adds_rows |].
  intros _.
  apply keeps_bind; [apply _ | apply keeps_lift; apply _ |]. intros home.
  apply keeps_bind; [apply _ | apply awaited_save_team_only_adds_rows |]. intros _.
  apply keeps_bind; [apply _ | apply keeps_lift; apply _ |]. intros away.
  apply awaited_save_team_only_adds_rows.
Qed.

End Frames.

(** ** [sync_fixtures]: where a failure stops *)

Section FixtureSync.

Import Sample.

Ltac and_then_inv H :=
  repeat match type of H with
  | and_then ?r _ = Ok _ =>
      let a := fresh "a" in
      let Ha := fresh "Ha" in
      destruct r as [a|] eqn:Ha; cbn [and_then] in H; [|discriminate H]
  end.

Lemma get_ok_dict (x : value) k dflt v :
  get x k dflt = Ok v → ∃ kvs, x = VDict kvs ∧ v = dict_get kvs k dflt.
Proof. destruct x; try discriminate. intros [= <-]. by eexists. Qed.

Lemma _save_team_none (w : world) : _save_team VNone w = (Ok tt, w).
Proof. reflexivity. Qed.

Lemma _save_team_dict (kvs : list (string * value)) (w : world) :
  ∃ w', _save_team (VDict kvs) w = (Ok tt, w') ∧ fixtures w' = fixtures w.
Proof.
  unfold _save_team. destruct (negb (truthy (VDict kvs))); [by eexists|].
  unfold bind, lift, map_team, get. cbn. by eexists.
Qed.

Lemma side_id_ok (teams : value) k v :
  and_then (get teams k (VDict [])) (λ h, get h "id" VNone) = Ok v →
  ∃ tk d, teams = VDict tk ∧ dict_get tk k (VDict []) = VDict d.
Proof.
  destruct teams as [| | | | | |tk]; try discriminate. cbn.
  destruct (dict_get tk k (VDict [])) eqn:Hk; try discriminate. eauto.
Qed.

(** A mapping error leaves the store untouched. *)
Lemma _save_fixture_raises (E : env) (fixture_data : value) (e : exn) (w : world) :
  map_fixture fixture_data = Raise e → _save_fixture E fixture_data w = (Raise e, w).
Proof. intros Hmap. unfold _save_fixture, bind, lift. by rewrite Hmap. Qed.

(** The await of [_save_team] for one side of a payload that maps: the
    side is absent or an object, and the only way to fail is a refusal
    of the store, which writes nothing. *)
Lemma awaited_save_team_side (E : env) (tk : list (string * value)) (k : string)
    (w0 : world) :
  (∃ d, dict_get tk k (VDict []) = VDict d) →
  (team_accepted E (dict_get tk k VNone) = true
   ∧ ∃ w1, awaited_save_team E (dict_get tk k VNone) w0 = (Ok tt, w1)
           ∧ fixtures w1 = fixtures w0)
  ∨ (team_accepted E (dict_get tk k VNone) = false
     ∧ ∃ e, awaited_save_team E (dict_get tk k VNone) w0 = (Raise e, w0)).
Proof.
  intros [d Hd]. unfold dict_get in *. destruct (assoc k tk) as [v|].
  - subst v. unfold awaited_save_team, team_accepted, written_team.
    destruct d as [|kv d].
    + left. split; [done|]. by exists w0.
    + cbn [truthy]. unfold map_team, get. cbn [and_then].
      unfold awaited, accepts.
      destruct (store_refuses E "teams" _) as [e|].
      * right. split; [done|]. by exists e.
      * left. split; [done|]. apply _save_team_dict.
  - left. split; [done|]. by exists w0.
Qed.

(** What saving a payload that maps does: it is stored under its id
    when the store takes its three writes; otherwise the save raises,
    with the fixture row written unless it was the one refused. *)
Lemma _save_fixture_mapped (E : env) (fixture_data : value) obj teams (w : world) :
  map_fixture fixture_data = Ok (obj, teams) →
  ∃ id, dict_get obj "id" VNone = VStr id
    ∧ ((saves E fixture_data = true
        ∧ ∃ r w', _save_fixture E fixture_data w = (Ok tt, w')
                  ∧ fixtures w' = <[id := r]> (fixtures w))
       ∨ (saves E fixture_data = false
          ∧ ∃ e w', _save_fixture E fixture_data w = (Raise e, w')
                    ∧ (fixtures w' = fixtures w
                       ∨ ∃ r, fixtures w' = <[id := r]> (fixtures w)))).
Proof.
  intros Hmap. unfold _save_fixture, saves, bind, lift. rewrite Hmap.
  unfold map_fixture in Hmap. and_then_inv Hmap.
  inversion Hmap as [[Hobj Hteams]]. clear Hmap. subst obj teams.
  exists (str a3). split; [reflexivity|].
  destruct (side_id_ok _ _ _ Ha5) as (tk & hk & -> & Hhome).
  destruct (side_id_ok _ _ _ Ha6) as (tk' & ak & [= <-] & Haway).
  cbn [dict_get assoc String.eqb Ascii.eqb Bool.eqb str side get].
  unfold awaited, accepts.
  destruct (store_refuses E "fixtures" (str a3)) as [e|].
  { right. split; [done|]. exists e, w. split; [done|]. by left. }
  destruct (upsert_fixture_lookup w
    [("id", VStr (str a3)); ("league_id", VStr (str a4));
     ("home_team_id", VStr (str a5)); ("away_team_id", VStr (str a6));
     ("match_date", a7); ("status", a8); ("home_score", a9);
     ("away_score", a10); ("venue", a11); ("referee_id", a12)] (str a3) eq_refl)
    as (r & -> & _).
  cbn [andb].
  destruct (awaited_save_team_side E tk "home"
              (set_fixtures (<[str a3:=r]> (fixtures w)) w))
    as [(-> & w1 & -> & Hw1)|(-> & e & ->)]; [by eexists| |].
  2:{ right. split; [done|]. eexists e, _. split; [done|]. right. by exists r. }
  cbn [andb].
  destruct (awaited_save_team_side E tk "away" w1)
    as [(-> & w2 & -> & Hw2)|(-> & e & ->)]; [by eexists| |].
  - left. split; [done|]. exists r, w2. split; [done|]. by rewrite Hw2, Hw1.
  - right. split; [done|]. exists e, w1. split; [done|]. right. exists r. by rewrite Hw1.
Qed.

(** A save goes through exactly for the payloads that map and whose
    three writes the store takes. *)
Lemma _save_fixture_outcome (E : env) (fixture_data : value) (w : world) :
  is_ok (fst (_save_fixture E fixture_data w)) = saves E fixture_data.
Proof.
  destruct (map_fixture fixture_data) as [[obj teams]|e] eqn:Hmap.
  - destruct (_save_fixture_mapped E fixture_data obj teams w Hmap)
      as (id & _ & [(-> & r & w' & -> & _)|(-> & e & w' & -> & _)]); done.
  - rewrite (_save_fixture_raises E _ e w Hmap). unfold saves. by rewrite Hmap.
Qed.

(** The fixture rows after a save: those there were, and at most the
    one of the payload's id. *)
Lemma _save_fixture_rows (E : env) (fixture_data : value) (w : world) (id : string) :
  is_Some (fixtures (snd (_save_fixture E fixture_data w)) !! id) →
  is_Some (fixtures w !! id) ∨ fixture_key fixture_data = Some id.
Proof.
  destruct (map_fixture fixture_data) as [[obj teams]|e] eqn:Hmap.
  - destruct (_save_fixture_mapped E fixture_data obj teams w Hmap)
      as (id' & Hid & [(_ & r & w' & -> & Hrows)|(_ & e & w' & -> & [Hrows|[r Hrows]])]);
      cbn [snd]; rewrite Hrows; try (by left).
    all: destruct (decide (id = id')) as [->|Hne];
      [right; unfold fixture_key; by rewrite Hmap, Hid
      |rewrite lookup_insert_ne by done; by left].
  - rewrite (_save_fixture_raises E _ e w Hmap). by left.
Qed.

(** The inner loop over a prefix of payloads that are all saved. *)
Lemma save_each_all_ok (E : env) (pre : list value) :
  Forall (λ x, saves E x = true) pre →
  ∀ total (w : world),
    ∃ w', save_each E pre total w = (Ok tt, total + Z.of_nat (List.length pre), w')
      ∧ dom (fixtures w) ⊆ dom (fixtures w')
      ∧ ∀ x id, x ∈ pre → fixture_key x = Some id → id ∈ dom (fixtures w').
Proof.
  induction 1 as [|x pre Hx Hpre IH]; intros total w.
  - exists w. cbn. split; [f_equal; f_equal; lia|]. split; [done|].
    intros x id Hin. by apply elem_of_nil in Hin.
  - destruct (map_fixture x) as [[obj teams]|] eqn:Hmap;
      [|unfold saves in Hx; by rewrite Hmap in Hx].
    destruct (_save_fixture_mapped E x obj teams w Hmap)
      as (id & Hid & [(_ & r & w1 & Hrun & Hfix)|(Hno & _)]); [|congruence].
    destruct (IH (total + 1) w1) as (w' & Hloop & Hdom & Hkeys).
    exists w'. cbn [save_each]. rewrite Hrun, Hloop.
    split; [f_equal; f_equal; cbn [List.length]; lia|].
    assert (Hstep : dom (fixtures w1) = {[id]} ∪ dom (fixtures w))
      by (rewrite Hfix; apply dom_insert_L).
    split; [etrans; [|exact Hdom]; rewrite Hstep; apply union_subseteq_r|].
    intros y idy Hin Hkey. apply elem_of_cons in Hin as [->|Hin].
    + unfold fixture_key in Hkey. rewrite Hmap, Hid in Hkey. injection Hkey as <-.
      apply Hdom. rewrite Hstep. by apply elem_of_union_l, elem_of_singleton.
    + by apply (Hkeys y).
Qed.

(** The fixture rows after the inner loop come from the store it
    started on or from the payloads of the batch. *)
Lemma save_each_rows (E : env) (items : list value) :
  ∀ total (w : world) id,
    is_Some (fixtures (snd (save_each E items total w)) !! id) →
    is_Some (fixtures w !! id) ∨ ∃ x, x ∈ items ∧ fixture_key x = Some id.
Proof.
  induction items as [|x items IH]; intros total w id; [by left|].
  cbn [save_each]. pose proof (_save_fixture_rows E x w id) as Hx.
  destruct (_save_fixture E x w) as [[[]|e] w1]; cbn [snd] in *.
  - intros Hid. destruct (IH _ _ _ Hid) as [Hw1|(y & Hy & Hkey)].
    + destruct (Hx Hw1) as [?|?]; [by left|]. right. exists x. split; [left|done].
    + right. exists y. split; [by right|done].
  - intros Hid. destruct (Hx Hid) as [?|?]; [by left|]. right. exists x. split; [left|done].
Qed.

(** The inner loop leaves at the first payload that is not saved; what
    follows it is not looked at. *)
Lemma save_each_stops (E : env) (pre post : list value) (bad : value) :
  Forall (λ x, saves E x = true) pre →
  saves E bad = false →
  ∀ total (w : world),
    ∃ e w_bad,
      _save_fixture E bad (snd (save_each E pre total w)) = (Raise e, w_bad)
      ∧ save_each E (pre ++ bad :: post) total w
        = (Raise e, total + Z.of_nat (List.length pre), w_bad)
      ∧ save_each E (pre ++ [bad]) total w
        = (Raise e, total + Z.of_nat (List.length pre), w_bad).
Proof.
  intros Hpre Hbad. induction Hpre as [|x pre Hx Hpre IH]; intros total w.
  - cbn [app save_each List.length snd].
    pose proof (_save_fixture_outcome E bad w) as Hout. rewrite Hbad in Hout.
    destruct (_save_fixture E bad w) as [[[]|e] w_bad]; [done|].
    exists e, w_bad. rewrite Z.add_0_r. done.
  - pose proof (_save_fixture_outcome E x w) as Hout. rewrite Hx in Hout.
    cbn [app save_each].
    destruct (_save_fixture E x w) as [[[]|e0] w1]; [|done].
    destruct (IH (total + 1) w1) as (e & w_bad & Hrun & Hall & Hcut).
    exists e, w_bad. rewrite Hall, Hcut. cbn [List.length].
    split; [done|]. split; do 2 f_equal; lia.
Qed.

(** C2, as stated, fails: with the third of five payloads broken, the
    run returns 2, not 4, and fixtures 4 and 5 are not in the store. *)
Lemma sync_fixtures_skips_rest_of_league :
  let run := sync_fixtures calm "2025-10-01" "2025-10-07" (Some ["39"]) in
  eval run empty_world = Ok 2
  ∧ eval run empty_world ≠ Ok 4
  ∧ is_Some (fixtures (exec run empty_world) !! "1")
  ∧ is_Some (fixtures (exec run empty_world) !! "2")
  ∧ fixtures (exec run empty_world) !! "4" = None
  ∧ fixtures (exec run empty_world) !! "5" = None.
Proof. vm_compute. repeat split; try done; by eexists. Qed.

(** C2, amended: a failure while saving one fixture is isolated at the
    granularity of its league.  When the fixtures returned for a league
    are [pre], all saved, then one whose save fails (its mapping raises,
    or the store refuses one of its three writes), then [post]: the
    fixtures of [pre] are upserted and counted; the failing one is not
    counted, a mapping error writes nothing, and after a refusal of the
    store what the failing save had written stays (no row is taken
    back); no fixture of [post] is looked at, so that the fixture rows
    of the store are those it had and those of [pre] and of the failing
    one; the exception does not leave the run, and the run goes on with
    the next league.  With item 3 of 5 failing to map in the only league
    the run returns 2 and holds items 1 and 2. *)
Theorem sync_fixtures_isolates_per_league
    (E : env) (date_from date_to league_id : string) (rest : list string)
    (data : value) (pre post : list value) (bad : value)
    (total : Z) (w : world) :
  fixtures_endpoint E league_id date_from date_to = Ok data →
  get data "response" (VList []) = Ok (VList (pre ++ bad :: post)) →
  Forall (λ x, saves E x = true) pre →
  saves E bad = false →
  let counted := total + Z.of_nat (List.length pre) in
  let w_pre := snd (save_each E pre total w) in
  ∃ e w_bad,
    _save_fixture E bad w_pre = (Raise e, w_bad)
    ∧ sync_league E date_from date_to league_id total w = (Raise e, counted, w_bad)
    ∧ (∀ x id, x ∈ pre → fixture_key x = Some id → is_Some (fixtures w_bad !! id))
    ∧ only_adds_rows w_pre w_bad
    ∧ (is_ok (map_fixture bad) = false → w_bad = w_pre)
    ∧ (∀ id, is_Some (fixtures w_bad !! id) →
         is_Some (fixtures w !! id)
         ∨ ∃ x, x ∈ (pre ++ [bad])%list ∧ fixture_key x = Some id)
    ∧ each_league E date_from date_to (league_id :: rest) total w
      = each_league E date_from date_to rest counted w_bad
    ∧ (total = 0 →
       sync_fixtures E date_from date_to (Some [league_id]) w = (Ok counted, w_bad)).
Proof.
  intros Hfetch Hresp Hpre Hbad counted w_pre.
  destruct (save_each_stops E pre post bad Hpre Hbad total w)
    as (e & w_bad & Hrun & Hall & Hcut).
  fold w_pre in Hrun. exists e, w_bad.
  assert (Hleague : sync_league E date_from date_to league_id total w
                    = (Raise e, counted, w_bad)).
  { unfold sync_league. rewrite Hfetch. cbn [and_then]. rewrite Hresp.
    cbn [and_then iter]. exact Hall. }
  assert (Hframe : only_adds_rows w_pre w_bad).
  { pose proof (_save_fixture_only_adds_rows E bad w_pre) as H.
    unfold exec in H. by rewrite Hrun in H. }
  split; [done|]. split; [done|]. split.
  { intros x id Hin Hkey.
    destruct (save_each_all_ok E pre Hpre total w) as (w' & Hloop & _ & Hkeys).
    apply (elem_of_dom (D := gset string)). apply (proj1 Hframe).
    subst w_pre. rewrite Hloop. cbn [snd]. by apply (Hkeys x). }
  split; [done|]. split.
  { intros Hmap. destruct (map_fixture bad) as [?|e'] eqn:Hbadmap; [done|].
    rewrite (_save_fixture_raises E bad e' w_pre Hbadmap) in Hrun. congruence. }
  split.
  { intros id Hid. apply (save_each_rows E (pre ++ [bad]) total w id).
    by rewrite Hcut. }
  split.
  { cbn [each_league]. by rewrite Hleague. }
  intros ->. unfold sync_fixtures. cbn [each_league]. by rewrite Hleague.
Qed.

Lemma sync_fixtures_isolates_per_league_witness :
  sync_fixtures calm "2025-10-01" "2025-10-07" (Some ["39"]) empty_world
  = (Ok 2, snd (save_each calm [fixture_payload 1 united newcastle;
                                fixture_payload 2 newcastle united] 0 empty_world))
  ∧ ∃ w_bad,
      sync_fixtures flaky "2025-10-01" "2025-10-07" (Some ["39"]) empty_world
      = (Ok 0, w_bad)
      ∧ is_Some (fixtures w_bad !! "1")
      ∧ is_Some (teams w_bad !! "33")
      ∧ teams w_bad !! "34" = None.
Proof.
  split.
  - destruct (sync_fixtures_isolates_per_league calm "2025-10-01" "2025-10-07" "39" []
       (VDict [("response", batch_of_five)])
       [fixture_payload 1 united newcastle; fixture_payload 2 newcastle united]
       [fixture_payload 4 united newcastle; fixture_payload 5 newcastle united]
       broken_payload 0 empty_world eq_refl eq_refl
       ltac:(repeat constructor) eq_refl)
      as (e & w_bad & _ & _ & _ & _ & Hsame & _ & _ & Hrun).
    rewrite (Hrun eq_refl). by rewrite (Hsame eq_refl).
  - destruct (sync_fixtures_isolates_per_league flaky "2025-10-01" "2025-10-07" "39" []
       (VDict [("response", batch_of_five)]) []
       [fixture_payload 2 newcastle united; broken_payload;
        fixture_payload 4 united newcastle; fixture_payload 5 newcastle united]
       (fixture_payload 1 united newcastle) 0 empty_world eq_refl eq_refl
       ltac:(constructor) eq_refl)
      as (e & w_bad & Hsave & _ & _ & _ & _ & _ & _ & Hrun).
    exists w_bad. split; [exact (Hrun eq_refl)|].
    vm_compute in Hsave. injection Hsave as _ <-.
    vm_compute. repeat split; by eexists.
Defined.

End FixtureSync.

(** ** [sync_fixture_stats] on an empty answer *)

Section StatsSync.

Import Sample.





End StatsSync.

(** ** Logo backfill: each asset is transferred once *)

Section LogoBackfill.

Import Sample.
Local Open Scope list_scope.

Lemma mirrors_once_refl (w w' : world) :
  puts w' = puts w → bucket w' = bucket w → mirrors_once w w'.
Proof.
  intros Hp Hb. exists []. rewrite Hp, Hb. split; [done|]. split; [constructor|].
  split; [|done]. intros k Hk. by apply elem_of_nil in Hk.
Qed.

Lemma mirrors_once_trans (w1 w2 w3 : world) :
  mirrors_once w1 w2 → mirrors_once w2 w3 → mirrors_once w1 w3.
Proof.
  intros (n1 & Hp1 & Hnd1 & Hnew1 & Hkeep1) (n2 & Hp2 & Hnd2 & Hnew2 & Hkeep2).
  exists (n2 ++ n1). split; [by rewrite Hp2, Hp1, app_assoc|]. split.
  { apply NoDup_app. split; [done|]. split; [|done].
    intros k Hk2 Hk1. destruct (Hnew2 k Hk2) as [Habsent _].
    destruct (Hnew1 k Hk1) as [_ [o Ho]]. congruence. }
  split.
  - intros k Hk. apply elem_of_app in Hk as [Hk|Hk].
    + destruct (Hnew2 k Hk) as [Habsent Hthere]. split; [|done].
      destruct (bucket w1 !! k) as [o|] eqn:Hk1; [|done].
      destruct (Hkeep1 k) as [o' Ho']; [by eexists|]. congruence.
    + destruct (Hnew1 k Hk) as [Habsent Hthere]. split; [done|]. by apply Hkeep2.
  - intros k Hk. by apply Hkeep2, Hkeep1.
Qed.

(** A hit of the existence check: no download, no upload, the owned
    public URL is returned. *)
Lemma upload_team_logo_hit (E : env) (team_id logo_url : string) (w : world) :
  is_Some (bucket w !! ("teams/" +:+ team_id +:+ ".png")) →
  upload_team_logo E team_id logo_url w
  = (Ok (get_public_url E ("teams/" +:+ team_id +:+ ".png")), w).
Proof.
  intros Hhit. unfold upload_team_logo, bind, file_exists.
  by rewrite bool_decide_eq_true_2.
Qed.

Lemma upload_team_logo_mirrors_once (E : env) (team_id logo_url : string) (w : world) :
  mirrors_once w (exec (upload_team_logo E team_id logo_url) w).
Proof.
  unfold exec, upload_team_logo, bind, file_exists.
  set (key := "teams/" +:+ team_id +:+ ".png").
  destruct (bool_decide (is_Some (bucket w !! key))) eqn:Hhit; [by apply mirrors_once_refl|].
  apply bool_decide_eq_false_1 in Hhit.
  unfold upload_from_url, bind, lift.
  destruct (download E logo_url) as [response|]; [|by apply mirrors_once_refl].
  unfold upload_file. destruct (put_object_ok E key); [|by apply mirrors_once_refl].
  cbn [snd]. exists [key]. cbn [puts put_bucket bucket].
  split; [done|]. split; [apply NoDup_singleton|]. split.
  - intros k Hk. apply list_elem_of_singleton in Hk as ->. split.
    + destruct (bucket w !! key) eqn:Hk; [|done]. destruct Hhit. by eexists.
    + rewrite lookup_insert_eq. by eexists.
  - intros k [o Ho]. destruct (decide (key = k)) as [->|Hne].
    + rewrite lookup_insert_eq. by eexists.
    + rewrite lookup_insert_ne; [|done]. by eexists.
Qed.

Lemma update_logo_mirrors_once (r2_url team_id : string) (w : world) :
  mirrors_once w (exec (update_logo r2_url team_id) w).
Proof. by apply mirrors_once_refl. Qed.

(** The loop over any selection of teams. *)
Lemma each_team_mirrors_once (E : env) (selected : list (string * string)) :
  ∀ uploaded (w : world), mirrors_once w (exec (each_team E selected uploaded) w).
Proof.
  induction selected as [|[team_id api_logo_url] rest IH]; intros uploaded w.
  - by apply mirrors_once_refl.
  - unfold exec in *. cbn [each_team]. unfold bind at 1. unfold try_except, bind at 1.
    pose proof (upload_team_logo_mirrors_once E team_id api_logo_url w) as Hup.
    unfold exec in Hup.
    destruct (upload_team_logo E team_id api_logo_url w) as [[r2_url|e] w1]; cbn [snd] in Hup.
    + unfold bind at 1. cbn [update_logo ret].
      eapply mirrors_once_trans; [exact Hup|].
      eapply mirrors_once_trans; [apply (update_logo_mirrors_once r2_url team_id w1)|].
      apply IH.
    + cbn [ret]. eapply mirrors_once_trans; [exact Hup|]. apply IH.
Qed.

Lemma sync_team_logos_mirrors_once (E : env) (limit : Z) (w : world) :
  mirrors_once w (exec (sync_team_logos E limit) w).
Proof.
  unfold exec, sync_team_logos, bind, select_upstream_teams.
  destruct (sql_limit limit _) as [selected|]; [|by apply mirrors_once_refl].
  apply each_team_mirrors_once.
Qed.

(** C8: over two logo backfills in succession, whatever the limits and
    however the network behaves in each, every object key is uploaded at
    most once in total, and only if the bucket did not hold it at the
    start; the keys uploaded by the first pass are in the bucket when the
    second starts, and a call of [upload_team_logo] for a key the bucket
    holds transfers nothing, changes nothing and returns the owned public
    URL. *)
Theorem sync_team_logos_twice_uploads_once
    (E1 E2 : env) (limit1 limit2 : Z) (w : world) :
  let w1 := exec (sync_team_logos E1 limit1) w in
  let w2 := exec (sync_team_logos E2 limit2) w1 in
  ∃ first second : list string,
    puts w1 = first ++ puts w
    ∧ puts w2 = second ++ first ++ puts w
    ∧ NoDup (second ++ first)
    ∧ (∀ k, k ∈ second ++ first → bucket w !! k = None)
    ∧ (∀ k, k ∈ first → is_Some (bucket w1 !! k))
    ∧ (∀ team_id logo_url (w' : world),
         is_Some (bucket w' !! ("teams/" +:+ team_id +:+ ".png")) →
         upload_team_logo E2 team_id logo_url w'
         = (Ok (R2_PUBLIC_URL E2 +:+ "/" +:+ "teams/" +:+ team_id +:+ ".png"), w')).
Proof.
  intros w1 w2.
  pose proof (sync_team_logos_mirrors_once E1 limit1 w) as H1.
  pose proof (sync_team_logos_mirrors_once E2 limit2 w1) as H2.
  fold w1 in H1. fold w2 in H2.
  pose proof (mirrors_once_trans _ _ _ H1 H2) as (new & Hp & Hnd & Hnew & _).
  destruct H1 as (first & Hp1 & _ & Hnew1 & _).
  destruct H2 as (second & Hp2 & _ & _ & _).
  exists first, second.
  assert (Hsplit : new = second ++ first).
  { rewrite Hp2, Hp1, app_assoc in Hp. by apply app_inv_tail in Hp. }
  subst new.
  split; [done|]. split; [by rewrite Hp2, Hp1|]. split; [done|].
  split; [intros k Hk; by apply Hnew|].
  split; [intros k Hk; by apply Hnew1|].
  intros team_id logo_url w' Hhit. by apply upload_team_logo_hit.
Qed.

Lemma sync_team_logos_twice_uploads_once_witness :
  let w0 := exec (_save_fixture calm (fixture_payload 1 united newcastle)) empty_world in
  let w1 := exec (sync_team_logos calm 50) w0 in
  upload_team_logo calm "33" "https://media.api-sports.io/football/teams/33.png" w1
  = (Ok "https://cdn.golex.app/teams/33.png", w1).
Proof.
  intros w0 w1.
  destruct (sync_team_logos_twice_uploads_once calm calm 50 50 w0)
    as (first & second & _ & _ & _ & _ & _ & Hhit).
  apply (Hhit "33"). vm_compute. by eexists.
Defined.

End LogoBackfill.

(** ** [get_fixtures]: filters, order and cap *)

Section FixtureQuery.

Import Sample.

Variable E : env.

(** The column type of [match_date] comes with a total order. *)
Hypothesis match_date_le_total :
  ∀ x y, match_date_le E x y = true ∨ match_date_le E y x = true.
Hypothesis match_date_le_trans :
  ∀ x y z, match_date_le E x y = true → match_date_le E y z = true →
           match_date_le E x z = true.

Lemma sql_eq_true (v : value) (s : string) : sql_eq v s = true → v = VStr s.
Proof.
  destruct v; try discriminate. cbn. intros H. by apply String.eqb_eq in H as ->.
Qed.

Lemma sql_ge_true (v : value) (s : string) :
  sql_ge E v s = true → v ≠ VNone ∧ match_date_le E (VStr s) v = true.
Proof. by destruct v. Qed.

Lemma sql_le_true (v : value) (s : string) :
  sql_le E v s = true → v ≠ VNone ∧ match_date_le E v (VStr s) = true.
Proof. by destruct v. Qed.

Lemma where_clause_passes date_from date_to league_id status (r : fixture_row) :
  where_clause E date_from date_to league_id status r = true →
  passes E date_from date_to league_id status r.
Proof.
  unfold where_clause, conjunct, passes. intros H.
  apply andb_prop in H as [H Hstatus]. apply andb_prop in H as [H Hleague].
  apply andb_prop in H as [Hfrom Hto].
  split; [|split; [|split]]; intros s Hs; rewrite Hs in *.
  - by apply sql_ge_true.
  - by apply sql_le_true.
  - by apply sql_eq_true.
  - by apply sql_eq_true.
Qed.

Local Instance match_date_asc_total : Total (match_date_asc E).
Proof.
  intros [ka a] [kb b]. unfold match_date_asc, match_date_asc_b. cbn.
  destruct (match_date_le_total (fx_match_date a) (fx_match_date b)) as [H|H];
    destruct (fx_match_date a), (fx_match_date b); rewrite ?H; cbn; auto.
Qed.

Local Instance match_date_asc_trans : Transitive (match_date_asc E).
Proof.
  intros [ka a] [kb b] [kc c]. unfold match_date_asc, match_date_asc_b. cbn.
  pose proof (match_date_le_trans (fx_match_date a) (fx_match_date b) (fx_match_date c)) as H.
  destruct (fx_match_date a), (fx_match_date b), (fx_match_date c); cbn; try done;
    rewrite !Is_true_true; exact H.
Qed.

Lemma passes_where_clause date_from date_to league_id status (r : fixture_row) :
  passes E date_from date_to league_id status r →
  where_clause E date_from date_to league_id status r = true.
Proof.
  unfold where_clause, conjunct, passes. intros (Hfrom & Hto & Hleague & Hstatus).
  assert (H1 : match supplied date_from with
               | Some s => sql_ge E (fx_match_date r) s | None => true end = true).
  { destruct (supplied date_from) as [s|]; [|done].
    destruct (Hfrom s eq_refl) as [Hne Hle]. by destruct (fx_match_date r). }
  assert (H2 : match supplied date_to with
               | Some s => sql_le E (fx_match_date r) s | None => true end = true).
  { destruct (supplied date_to) as [s|]; [|done].
    destruct (Hto s eq_refl) as [Hne Hle]. by destruct (fx_match_date r). }
  assert (H3 : match supplied league_id with
               | Some s => sql_eq (fx_league_id r) s | None => true end = true).
  { destruct (supplied league_id) as [s|]; [|done].
    rewrite (Hleague s eq_refl). apply String.eqb_refl. }
  assert (H4 : match supplied status with
               | Some s => sql_eq (fx_status r) s | None => true end = true).
  { destruct (supplied status) as [s|]; [|done].
    rewrite (Hstatus s eq_refl). apply String.eqb_refl. }
  by rewrite H1, H2, H3, H4.
Qed.

(** C9: for every combination of the optional filters, and a cap within
    the range of the LIMIT parameter, [get_fixtures] returns rows of the
    table that each satisfy every supplied predicate (a filter counts as
    supplied when it is neither [None] nor empty), in ascending order of
    the scheduled timestamp with NULLs last, at most [limit] of them; the
    store is left as it was.  Nothing else is held back: every stored
    fixture that satisfies the supplied predicates is returned, once,
    unless the cap cuts it off; the rows cut off, [cut] below, come
    after every returned row in the order, there are some only when
    [limit] rows were returned, and none when the cap is at least the
    number of stored fixtures. *)
Theorem get_fixtures_filters_sorted_capped
    (date_from date_to league_id status : option string) (limit : Z) (w : world) :
  0 ≤ limit ≤ 9223372036854775807 →
  ∃ rows cut,
    get_fixtures E date_from date_to league_id status limit w = (Ok rows, w)
    ∧ Forall (λ kr, fixtures w !! fst kr = Some (snd kr)
                    ∧ passes E date_from date_to league_id status (snd kr)) rows
    ∧ StronglySorted (match_date_asc E) rows
    ∧ Z.of_nat (List.length rows) ≤ limit
    ∧ (∀ id r, fixtures w !! id = Some r →
               passes E date_from date_to league_id status r →
               (id, r) ∈ (rows ++ cut)%list)
    ∧ NoDup (rows ++ cut)%list
    ∧ StronglySorted (match_date_asc E) (rows ++ cut)%list
    ∧ (cut ≠ [] → Z.of_nat (List.length rows) = limit)
    ∧ (Z.of_nat (size (fixtures w)) ≤ limit → cut = []).
Proof.
  intros Hlimit. unfold get_fixtures, sql_limit.
  destruct (Z.ltb_spec limit 0) as [?|_]; [lia|].
  destruct (Z.ltb_spec 9223372036854775807 limit) as [?|_]; [lia|]. cbn [orb].
  set (selected := filter _ (map_to_list (fixtures w))).
  set (sorted := merge_sort (match_date_asc E) selected).
  exists (take (Z.to_nat limit) sorted), (drop (Z.to_nat limit) sorted).
  assert (Hsorted : StronglySorted (match_date_asc E) sorted)
    by (apply StronglySorted_merge_sort; apply _).
  assert (Hlen : (List.length sorted ≤ size (fixtures w))%nat).
  { subst sorted. rewrite merge_sort_Permutation. subst selected.
    rewrite <- length_map_to_list. apply length_filter. }
  rewrite take_drop.
  split; [reflexivity|]. split; [|split; [|split; [|split; [|split; [|split; [|split]]]]]].
  - apply Forall_forall. intros [k r] Hin.
    apply subseteq_take in Hin. subst sorted. rewrite merge_sort_Permutation in Hin.
    apply list_elem_of_filter in Hin as [Hpass Hrow].
    apply elem_of_map_to_list in Hrow. split; [done|].
    apply where_clause_passes. by apply Is_true_true.
  - apply (StronglySorted_app_1_l _ _ (drop (Z.to_nat limit) sorted)).
    by rewrite take_drop.
  - rewrite length_take. lia.
  - intros id r Hrow Hpass. subst sorted. rewrite merge_sort_Permutation.
    apply list_elem_of_filter. split.
    + apply Is_true_true. by apply passes_where_clause.
    + by apply elem_of_map_to_list.
  - subst sorted. rewrite merge_sort_Permutation.
    apply NoDup_filter, NoDup_map_to_list.
  - exact Hsorted.
  - intros Hcut. rewrite length_take.
    destruct (decide (List.length sorted ≤ Z.to_nat limit)%nat) as [Hshort|?]; [|lia].
    destruct Hcut. by apply drop_ge.
  - intros Hall. apply drop_ge. lia.
Qed.

End FixtureQuery.

Lemma calm_match_date_le_total (x y : value) :
  match_date_le Sample.calm x y = true ∨ match_date_le Sample.calm y x = true.
Proof.
  cbn. destruct (Z.le_ge_cases (Sample.date_key x) (Sample.date_key y)) as [H|H];
    [left|right]; apply bool_decide_eq_true_2; lia.
Qed.

Lemma calm_match_date_le_trans (x y z : value) :
  match_date_le Sample.calm x y = true → match_date_le Sample.calm y z = true →
  match_date_le Sample.calm x z = true.
Proof.
  cbn. rewrite !bool_decide_eq_true. lia.
Qed.

Lemma get_fixtures_filters_sorted_capped_witness :
  let w := exec (sync_fixtures Sample.calm "2025-10-01" "2025-10-07" (Some ["39"]))
                empty_world in
  ∃ rows r1 r2,
    get_fixtures Sample.calm None None (Some "39") (Some "NS") 100 w = (Ok rows, w)
    ∧ fixtures w !! "1" = Some r1 ∧ ("1", r1) ∈ rows
    ∧ fixtures w !! "2" = Some r2 ∧ ("2", r2) ∈ rows
    ∧ Z.of_nat (List.length rows) ≤ 100
    ∧ Forall (λ kr, fx_status (snd kr) = VStr "NS") rows.
Proof.
  intros w.
  destruct (get_fixtures_filters_sorted_capped Sample.calm
              calm_match_date_le_total calm_match_date_le_trans
              None None (Some "39") (Some "NS") 100 w)
    as (rows & cut & Hrun & Hpass & _ & Hcap & Hall & _ & _ & _ & Hnocut); [lia|].
  rewrite (Hnocut ltac:(by vm_compute)), app_nil_r in Hall.
  destruct (fixtures w !! "1") as [r1|] eqn:Hr1; [|by vm_compute in Hr1].
  destruct (fixtures w !! "2") as [r2|] eqn:Hr2; [|by vm_compute in Hr2].
  exists rows, r1, r2. split; [exact Hrun|].
  split; [reflexivity|]. split.
  { apply Hall; [exact Hr1|]. apply where_clause_passes.
    vm_compute in Hr1. injection Hr1 as <-. reflexivity. }
  split; [reflexivity|]. split.
  { apply Hall; [exact Hr2|]. apply where_clause_passes.
    vm_compute in Hr2. injection Hr2 as <-. reflexivity. }
  split; [exact Hcap|].
  eapply Forall_impl; [exact Hpass|]. intros kr [_ (_ & _ & _ & Hstatus)].
  by apply Hstatus.
Defined.

(** * Further properties of the code *)

(** ** Team rows *)

Section TeamRows.

(** X1: saving a team from a fixture payload when its row exists
    replaces name and logo by the payload's, sets the venue to NULL, and
    keeps country, league id, founding year and creation time; no other
    row and no other table changes. *)
Theorem save_team_on_existing_row
    (kvs : list (string * value)) (w : world) (old : team_row) :
  kvs ≠ [] →
  teams w !! str (dict_get kvs "id" VNone) = Some old →
  let id := str (dict_get kvs "id" VNone) in
  let w' := exec (_save_team (VDict kvs)) w in
  eval (_save_team (VDict kvs)) w = Ok tt
  ∧ teams w' !! id
    = Some {| tm_name := dict_get kvs "name" VNone;
              tm_logo_url := dict_get kvs "logo" VNone;
              tm_country := tm_country old;
              tm_league_id := tm_league_id old;
              tm_founded := tm_founded old;
              tm_venue := VNone;
              tm_created_at := tm_created_at old |}
  ∧ (∀ id', id' ≠ id → teams w' !! id' = teams w !! id')
  ∧ fixtures w' = fixtures w ∧ fixture_stats w' = fixture_stats w
  ∧ bucket w' = bucket w.
Proof.
  intros Hne Hold id w'. subst id w'.
  unfold eval, exec, _save_team. destruct kvs as [|kv kvs]; [done|].
  cbn [truthy negb]. unfold bind, lift, map_team, get. cbn [and_then].
  unfold upsert_team. cbn [dict_get assoc String.eqb Ascii.eqb Bool.eqb text_key].
  cbn [dict_get] in Hold. rewrite Hold. cbn.
  split; [done|]. split; [by rewrite lookup_insert_eq|].
  split; [|done]. intros id' Hid'. by rewrite lookup_insert_ne.
Qed.

Lemma save_team_on_existing_row_witness :
  let kvs := [("id", VInt 33); ("name", VStr "Manchester United");
              ("logo", VStr "https://media.api-sports.io/football/teams/33.png")] in
  let w := exec (_save_team (VDict kvs)) empty_world in
  (tm_venue <$> teams (exec (_save_team (VDict kvs)) w) !! "33") = Some VNone.
Proof.
  intros kvs w.
  destruct (save_team_on_existing_row kvs w
              {| tm_name := VStr "Manchester United";
                 tm_logo_url := VStr "https://media.api-sports.io/football/teams/33.png";
                 tm_country := VNone; tm_league_id := VNone; tm_founded := VNone;
                 tm_venue := VNone; tm_created_at := 0 |})
    as (_ & Hrow & _).
  - discriminate.
  - vm_compute. reflexivity.
  - exact (f_equal (fmap tm_venue) Hrow).
Defined.

(** X2: what [upsert_team] wrote is what [get_team] reads back: the row
    under the record's id carries the record's name, logo and venue, the
    read changes nothing, and every other id reads as before the
    upsert. *)
Theorem get_team_after_upsert_team
    (team_data : list (string * value)) (id : string) (w : world) :
  dict_get team_data "id" VNone = VStr id →
  let w' := exec (upsert_team team_data) w in
  (∃ r, get_team id w' = (Ok (Some (id, r)), w')
        ∧ tm_name r = dict_get team_data "name" VNone
        ∧ tm_logo_url r = dict_get team_data "logo_url" VNone
        ∧ tm_venue r = dict_get team_data "venue" VNone)
  ∧ (∀ id', id' ≠ id → eval (get_team id') w' = eval (get_team id') w).
Proof.
  intros Hid w'. subst w'. unfold exec, upsert_team. rewrite Hid. cbn [text_key snd].
  unfold get_team, eval. cbn [teams set_teams fst]. split.
  - rewrite lookup_insert_eq. eexists. split; [reflexivity|].
    by destruct (teams w !! id).
  - intros id' Hne. by rewrite lookup_insert_ne.
Qed.

Lemma get_team_after_upsert_team_witness :
  ∃ r, eval (get_team "33")
            (exec (upsert_team [("id", VStr "33"); ("name", VStr "Manchester United")])
                  empty_world)
       = Ok (Some ("33", r))
       ∧ tm_name r = VStr "Manchester United".
Proof.
  destruct (get_team_after_upsert_team
              [("id", VStr "33"); ("name", VStr "Manchester United")] "33" empty_world
              eq_refl) as ((r & Hget & Hname & _) & _).
  exists r. unfold eval. rewrite Hget. by split.
Defined.

End TeamRows.

(** ** Fixture upserts on different ids *)

Section FixtureRows.

Lemma upsert_fixture_writes (w : world) fixture_data id :
  dict_get fixture_data "id" VNone = VStr id →
  upsert_fixture fixture_data w
  = (Ok tt, set_fixtures
              (<[id := upserted_fixture (clock w) fixture_data (fixtures w !! id)]>
                 (fixtures w)) w).
Proof.
  intros Hid. unfold upsert_fixture, upserted_fixture. rewrite Hid. cbn [text_key].
  by destruct (fixtures w !! id).
Qed.

Lemma touch_upserted (now now' t : Z) fixture_data (held : option fixture_row) :
  touch t (upserted_fixture now fixture_data held)
  = touch t (upserted_fixture now' fixture_data held).
Proof. by destruct held. Qed.

(** X3: two [upsert_fixture] statements for different ids commute: in
    either order, and whatever time passes between them, they leave the
    same fixtures up to the [updated_at] stamps, and the very same store
    when no time passes. *)
Theorem upsert_fixture_commutes
    (d1 d2 : list (string * value)) (id1 id2 : string) (dt : Z) (w : world) :
  dict_get d1 "id" VNone = VStr id1 →
  dict_get d2 "id" VNone = VStr id2 →
  id1 ≠ id2 →
  let w12 := exec (upsert_fixture d2) (elapse dt (exec (upsert_fixture d1) w)) in
  let w21 := exec (upsert_fixture d1) (elapse dt (exec (upsert_fixture d2) w)) in
  (∀ id, touch 0 <$> fixtures w12 !! id = touch 0 <$> fixtures w21 !! id)
  ∧ dom (fixtures w12) = dom (fixtures w21)
  ∧ (dt = 0 → w12 = w21).
Proof.
  intros H1 H2 Hne w12 w21. subst w12 w21. unfold exec.
  rewrite (upsert_fixture_writes w d1 id1 H1), (upsert_fixture_writes w d2 id2 H2).
  cbn [snd].
  rewrite (upsert_fixture_writes _ d2 id2 H2), (upsert_fixture_writes _ d1 id1 H1).
  cbn [snd fixtures set_fixtures elapse clock teams fixture_stats bucket puts].
  rewrite lookup_insert_ne by done.
  rewrite (lookup_insert_ne _ id2 id1) by done.
  split; [|split].
  - intros id. destruct (decide (id = id1)) as [->|Hid1].
    + rewrite lookup_insert_ne, !lookup_insert_eq by done. cbn [fmap option_fmap option_map].
      f_equal. apply touch_upserted.
    + destruct (decide (id = id2)) as [->|Hid2].
      * rewrite lookup_insert_eq, lookup_insert_ne, lookup_insert_eq by done.
        cbn [fmap option_fmap option_map]. f_equal. apply touch_upserted.
      * by rewrite !lookup_insert_ne by done.
  - rewrite !dom_insert_L. by rewrite (assoc_L (∪)), (comm_L (∪) {[id2]}), <- (assoc_L (∪)).
  - intros ->. rewrite !Z.add_0_r. unfold set_fixtures. cbn. f_equal.
    by apply insert_insert_ne.
Qed.

Lemma upsert_fixture_commutes_witness :
  exec (upsert_fixture [("id", VStr "2"); ("status", VStr "FT")])
       (elapse 0 (exec (upsert_fixture Sample.test_fixture) empty_world))
  = exec (upsert_fixture Sample.test_fixture)
         (elapse 0 (exec (upsert_fixture [("id", VStr "2"); ("status", VStr "FT")])
                         empty_world)).
Proof.
  apply (upsert_fixture_commutes Sample.test_fixture
           [("id", VStr "2"); ("status", VStr "FT")] "test_12345" "2" 0 empty_world);
    [reflexivity | reflexivity | discriminate | reflexivity].
Defined.

End FixtureRows.

(** ** What [sync_fixtures] writes and counts *)

Section FixtureSyncFrame.

Lemma save_each_only_adds_rows (E : env) (items : list value) :
  ∀ total (w : world), only_adds_rows w (snd (save_each E items total w)).
Proof.
  induction items as [|x items IH]; intros total w; [reflexivity|].
  cbn [save_each]. pose proof (_save_fixture_only_adds_rows E x w) as Hx. unfold exec in Hx.
  destruct (_save_fixture E x w) as [[[]|e] w1]; cbn [snd] in *; [|done].
  etrans; [exact Hx|]. apply IH.
Qed.

Lemma each_league_only_adds_rows (E : env) (date_from date_to : string)
    (leagues : list string) :
  ∀ total (w : world),
    only_adds_rows w (snd (each_league E date_from date_to leagues total w)).
Proof.
  induction leagues as [|league_id rest IH]; intros total w; [reflexivity|].
  cbn [each_league].
  assert (Hl : only_adds_rows w (snd (sync_league E date_from date_to league_id total w))).
  { unfold sync_league. destruct (and_then _ _) as [items|]; [|reflexivity].
    apply save_each_only_adds_rows. }
  destruct (sync_league E date_from date_to league_id total w) as [[r total'] w1].
  cbn [snd] in Hl. etrans; [exact Hl|]. apply IH.
Qed.

(** The frame of a whole run of [sync_fixtures]. *)
Lemma sync_fixtures_frame
    (E : env) (date_from date_to : string) (leagues : option (list string)) (w : world) :
  only_adds_rows w (exec (sync_fixtures E date_from date_to leagues) w).
Proof.
  unfold exec, sync_fixtures.
  pose proof (each_league_only_adds_rows E date_from date_to
                (effective_leagues leagues) 0 w) as H.
  unfold effective_leagues in H.
  destruct (each_league _ _ _ _ 0 w) as [total w'] eqn:Hrun. exact H.
Qed.

(** X4: whatever the upstream answers, [sync_fixtures] never removes a
    fixture or team row and touches nothing else: the statistics table,
    the bucket, the record of uploads and the clock are as before. *)
Theorem sync_fixtures_only_adds_rows
    (E : env) (date_from date_to : string) (leagues : option (list string)) (w : world) :
  only_adds_rows w (exec (sync_fixtures E date_from date_to leagues) w).
Proof. apply sync_fixtures_frame. Qed.

(** The inner loop counts the payloads ahead of the first that is not
    saved. *)
Lemma save_each_counts (E : env) (items : list value) :
  ∀ total (w : world),
    snd (fst (save_each E items total w)) = total + Z.of_nat (saved_prefix E items).
Proof.
  induction items as [|x items IH]; intros total w.
  - cbn. lia.
  - cbn [save_each saved_prefix].
    rewrite <- (_save_fixture_outcome E x w).
    destruct (_save_fixture E x w) as [[[]|e] w1]; cbn [fst is_ok].
    + rewrite IH. lia.
    + cbn. lia.
Qed.

Lemma sync_league_counts (E : env) (date_from date_to league_id : string)
    (total : Z) (w : world) :
  snd (fst (sync_league E date_from date_to league_id total w))
  = total + Z.of_nat (saved_prefix E (league_items E date_from date_to league_id)).
Proof.
  unfold sync_league, league_items.
  destruct (and_then _ _) as [items|]; [apply save_each_counts|].
  cbn. lia.
Qed.

Lemma each_league_counts (E : env) (date_from date_to : string) (leagues : list string) :
  ∀ total (w : world),
    fst (each_league E date_from date_to leagues total w)
    = total + Z.of_nat (sum_list_with
                          (λ league_id,
                             saved_prefix E (league_items E date_from date_to league_id))
                          leagues).
Proof.
  induction leagues as [|league_id rest IH]; intros total w.
  - cbn. lia.
  - cbn [each_league sum_list_with].
    pose proof (sync_league_counts E date_from date_to league_id total w) as Hcount.
    destruct (sync_league E date_from date_to league_id total w) as [[r total'] w1].
    cbn [fst snd] in Hcount. subst total'. rewrite IH. lia.
Qed.

(** X5: the number [sync_fixtures] returns is, summed over the leagues of
    the run, the number of fixtures ahead of the first one of the league
    that is not saved, be it that its mapping raises or that the store
    refuses its fixture row or one of its team rows (none for a league
    whose request fails); a league named twice is counted twice. *)
Theorem sync_fixtures_count
    (E : env) (date_from date_to : string) (leagues : option (list string)) (w : world) :
  eval (sync_fixtures E date_from date_to leagues) w
  = Ok (Z.of_nat (counted_fixtures E date_from date_to leagues)).
Proof.
  unfold eval, sync_fixtures, counted_fixtures.
  pose proof (each_league_counts E date_from date_to (effective_leagues leagues) 0 w)
    as Hcount.
  unfold effective_leagues in *.
  destruct (each_league _ _ _ _ 0 w) as [total w'] eqn:Hrun.
  cbn [fst] in *. by rewrite Hcount.
Qed.

(** A batch that does not get as far as the store is neither counted
    nor written. *)
Lemma save_each_before_store (E : env) (items : list value) (total : Z) (w : world) :
  stops_before_store items = true →
  snd (fst (save_each E items total w)) = total ∧ snd (save_each E items total w) = w.
Proof.
  destruct items as [|x items]; [done|]. cbn [stops_before_store save_each].
  destruct (map_fixture x) as [?|e] eqn:Hmap; [done|]. intros _.
  by rewrite (_save_fixture_raises E x e w Hmap).
Qed.

Lemma each_league_before_store (E : env) (date_from date_to : string)
    (leagues : list string) :
  (∀ league_id, league_id ∈ leagues →
     stops_before_store (league_items E date_from date_to league_id) = true) →
  ∀ total (w : world), each_league E date_from date_to leagues total w = (total, w).
Proof.
  induction leagues as [|league_id rest IH]; intros Hstop total w; [done|].
  cbn [each_league].
  assert (Hl : snd (fst (sync_league E date_from date_to league_id total w)) = total
               ∧ snd (sync_league E date_from date_to league_id total w) = w).
  { specialize (Hstop league_id ltac:(left)). revert Hstop.
    unfold sync_league, league_items.
    destruct (and_then _ _) as [items|]; [apply save_each_before_store|done]. }
  destruct (sync_league E date_from date_to league_id total w) as [[r total'] w1].
  cbn [fst snd] in Hl. destruct Hl as [-> ->].
  apply IH. intros l Hl. apply Hstop. by right.
Qed.

(** X6: when no league of the run gets a fixture as far as the store
    (its request fails, its answer holds no fixture, or the first
    fixture of its answer does not map), [sync_fixtures] returns 0 and
    leaves the store exactly as it was. *)
Theorem sync_fixtures_outage_writes_nothing
    (E : env) (date_from date_to : string) (leagues : option (list string)) (w : world) :
  (∀ league_id, league_id ∈ effective_leagues leagues →
     stops_before_store (league_items E date_from date_to league_id) = true) →
  sync_fixtures E date_from date_to leagues w = (Ok 0, w).
Proof.
  intros Hstop. unfold sync_fixtures.
  pose proof (each_league_before_store E date_from date_to (effective_leagues leagues)
                Hstop 0 w) as Hrun.
  unfold effective_leagues in Hrun. by rewrite Hrun.
Qed.

Lemma sync_fixtures_outage_writes_nothing_witness :
  let w := exec (_save_fixture Sample.calm
                   (Sample.fixture_payload 1 Sample.united Sample.newcastle))
                empty_world in
  sync_fixtures Sample.down "2025-10-01" "2025-10-07" None w = (Ok 0, w)
  ∧ sync_fixtures Sample.calm "2025-10-01" "2025-10-07" (Some ["140"; "78"]) w = (Ok 0, w).
Proof.
  intros w. split.
  - apply (sync_fixtures_outage_writes_nothing Sample.down "2025-10-01" "2025-10-07" None w).
    intros league_id _. reflexivity.
  - apply (sync_fixtures_outage_writes_nothing Sample.calm "2025-10-01" "2025-10-07"
             (Some ["140"; "78"]) w).
    intros league_id Hin. cbn in Hin.
    apply elem_of_cons in Hin as [->|Hin]; [reflexivity|].
    apply elem_of_cons in Hin as [->|Hin]; [reflexivity|].
    by apply elem_of_nil in Hin.
Defined.

End FixtureSyncFrame.

(** ** Statistics *)

Section Statistics.

Local Open Scope list_scope.

Lemma find_stat_skips (pre : list (list (string * value))) (stat_type : string)
    (rest : list value) :
  Forall (λ d, type_is (dict_get d "type" VNone) stat_type = false) pre →
  find_stat (map VDict pre ++ rest) stat_type = find_stat rest stat_type.
Proof.
  induction 1 as [|d pre Hd _ IH]; [done|].
  cbn [map app find_stat get and_then]. by rewrite Hd.
Qed.

(** X7: [get_stat] stops at the first entry of the target type: whatever
    follows it in the list, even entries that are not objects, is never
    looked at.  An entry that is not an object ahead of any match makes
    it raise [AttributeError]. *)
Theorem get_stat_stops_at_first_match
    (pre : list (list (string * value))) (stat_type : string) (rest : list value) :
  Forall (λ d, type_is (dict_get d "type" VNone) stat_type = false) pre →
  (∀ e, type_is (dict_get e "type" VNone) stat_type = true →
        get_stat (VList (map VDict pre ++ VDict e :: rest)) stat_type
        = normalize (dict_get e "value" VNone))
  ∧ (∀ bad, (∀ kvs, bad ≠ VDict kvs) →
        get_stat (VList (map VDict pre ++ bad :: rest)) stat_type = Raise AttributeError).
Proof.
  intros Hpre. split.
  - intros e He. unfold get_stat. cbn [iter and_then].
    rewrite (find_stat_skips pre stat_type _ Hpre).
    cbn [find_stat get and_then]. by rewrite He.
  - intros bad Hbad. unfold get_stat. cbn [iter and_then].
    rewrite (find_stat_skips pre stat_type _ Hpre).
    cbn [find_stat]. destruct bad; try reflexivity. by destruct (Hbad kvs).
Qed.

Lemma get_stat_stops_at_first_match_witness :
  get_stat (VList [VDict [("type", VStr "Fouls"); ("value", VInt 11)];
                   VDict [("type", VStr "Corner Kicks"); ("value", VInt 8)];
                   VNone; VStr "garbage"]) "Corner Kicks"
  = Ok (VInt 8).
Proof.
  apply (proj1 (get_stat_stops_at_first_match
                  [[("type", VStr "Fouls"); ("value", VInt 11)]] "Corner Kicks"
                  [VNone; VStr "garbage"] ltac:(repeat constructor))
               [("type", VStr "Corner Kicks"); ("value", VInt 8)]).
  reflexivity.
Defined.

Ltac and_then_ok H :=
  repeat match type of H with
  | and_then ?r _ = Ok _ =>
      let a := fresh "a" in
      let Ha := fresh "Ha" in
      destruct r as [a|] eqn:Ha; cbn [and_then] in H; [|discriminate H]
  end.

(** X8: a record that [_parse_fixture_stats] returns always has the same
    twelve columns in the same order, with both expected-goals columns
    null; only the first two entries of the response are read, and with a
    single entry every away column is null. *)
Theorem parse_fixture_stats_shape :
  (∀ stats_data d, _parse_fixture_stats stats_data = Ok d →
     map fst d = stat_columns
     ∧ dict_get d "home_xg" VNone = VNone ∧ dict_get d "away_xg" VNone = VNone)
  ∧ (∀ home away more,
       _parse_fixture_stats (VList (home :: away :: more))
       = _parse_fixture_stats (VList [home; away]))
  ∧ (∀ home d, _parse_fixture_stats (VList [home]) = Ok d →
       dict_get d "away_possession" VNone = VNone
       ∧ dict_get d "away_shots" VNone = VNone
       ∧ dict_get d "away_shots_on_target" VNone = VNone
       ∧ dict_get d "away_corners" VNone = VNone
       ∧ dict_get d "away_fouls" VNone = VNone).
Proof.
  split; [|split].
  - intros stats_data d H. unfold _parse_fixture_stats in H. and_then_ok H.
    injection H as <-. by cbn.
  - intros home away more. reflexivity.
  - intros home d H. unfold _parse_fixture_stats, side_stats in H.
    cbn [len iter List.length and_then Nat.ltb Nat.leb index nth_error] in H.
    destruct (get home "statistics" (VList [])) as [home_stats|]; [|discriminate H].
    cbn [and_then] in H. change (get_stat (VList []) _) with (Ok VNone) in H.
    cbn [and_then] in H. and_then_ok H. injection H as <-. by cbn.
Qed.

Lemma parse_fixture_stats_shape_witness :
  ∃ d, _parse_fixture_stats
         (VList [VDict [("statistics",
                         VList [VDict [("type", VStr "Fouls"); ("value", VInt 11)]])]])
       = Ok d
       ∧ dict_get d "home_fouls" VNone = VInt 11
       ∧ dict_get d "away_fouls" VNone = VNone.
Proof.
  set (home := VDict [("statistics",
                       VList [VDict [("type", VStr "Fouls"); ("value", VInt 11)]])]).
  destruct (_parse_fixture_stats (VList [home])) as [d|] eqn:Hd; [|discriminate Hd].
  exists d. split; [reflexivity|].
  destruct (proj2 (proj2 parse_fixture_stats_shape) home d Hd) as (_ & _ & _ & _ & Haway).
  split; [|exact Haway].
  vm_compute in Hd. by injection Hd as <-.
Defined.






End Statistics.

(** ** The bucket *)

Section Bucket.

Local Open Scope list_scope.

Lemma string_app_cons (a : ascii) (s t : string) :
  String a s +:+ t = String a (s +:+ t).
Proof. reflexivity. Qed.

Lemma string_length_app (s t : string) :
  String.length (s +:+ t) = (String.length s + String.length t)%nat.
Proof.
  induction s as [|a s IH]; [done|]. rewrite string_app_cons. cbn. by rewrite IH.
Qed.

Lemma string_app_inv_tail (s1 s2 t : string) : s1 +:+ t = s2 +:+ t → s1 = s2.
Proof.
  revert s2. induction s1 as [|a s1 IH]; intros [|b s2] H.
  - done.
  - apply (f_equal String.length) in H. rewrite !string_length_app in H.
    cbn in H. lia.
  - apply (f_equal String.length) in H. rewrite !string_length_app in H.
    cbn in H. lia.
  - rewrite !string_app_cons in H. injection H as -> H. f_equal. by apply IH.
Qed.

Lemma asset_key_inj (prefix a b : string) :
  prefix +:+ a +:+ ".png" = prefix +:+ b +:+ ".png" → a = b.
Proof.
  intros H. apply (inj (String.app prefix)) in H. by apply string_app_inv_tail in H.
Qed.

(** The common body of the three upload helpers. *)
Lemma upload_asset_outcome (E : env) (url key : string) (w : world) :
  let run := (present <- file_exists key ;;
              if (present : bool) then ret (get_public_url E key)
              else upload_from_url E url key) in
  (is_Some (bucket w !! key) → run w = (Ok (get_public_url E key), w))
  ∧ (bucket w !! key = None → transfers E url key = true →
       ∃ content_type body,
         download E url = Ok (content_type, body)
         ∧ run w = (Ok (get_public_url E key),
                    put_bucket key
                      {| ob_body := body;
                         ob_content_type := resolve_content_type E key content_type;
                         ob_cache_control := "public, max-age=31536000" |} w))
  ∧ (bucket w !! key = None → transfers E url key = false →
       ∃ e, run w = (Raise e, w)).
Proof.
  intros run. subst run. unfold bind, file_exists, transfers. split; [|split].
  - intros Hhit. by rewrite bool_decide_eq_true_2.
  - intros Hmiss Hgo. rewrite bool_decide_eq_false_2 by (rewrite Hmiss; by intros [? ?]).
    unfold upload_from_url, bind, lift, upload_file.
    destruct (download E url) as [[content_type body]|]; [|done].
    cbn [is_ok andb] in Hgo. rewrite Hgo. by exists content_type, body.
  - intros Hmiss Hno. rewrite bool_decide_eq_false_2 by (rewrite Hmiss; by intros [? ?]).
    unfold upload_from_url, bind, lift, upload_file.
    destruct (download E url) as [[content_type body]|e]; [|by exists e].
    cbn [is_ok andb] in Hno. rewrite Hno. by exists ClientError.
Qed.

(** The two ways [upload_team_logo] can end. *)
Lemma upload_team_logo_effect (E : env) (team_id logo_url : string) (w : world) :
  let key := team_key team_id in
  (is_Some (bucket w !! key) ∨ transfers E logo_url key = true →
     ∃ w', upload_team_logo E team_id logo_url w = (Ok (get_public_url E key), w')
           ∧ only_touches_key key w w'
           ∧ (is_Some (bucket w !! key) → w' = w)
           ∧ ∃ o, bucket w' !! key = Some o
                  ∧ (bucket w !! key = None →
                       (∃ content_type, download E logo_url = Ok (content_type, ob_body o))
                       ∧ ob_cache_control o = "public, max-age=31536000"
                       ∧ puts w' = key :: puts w))
  ∧ (bucket w !! key = None → transfers E logo_url key = false →
       ∃ e, upload_team_logo E team_id logo_url w = (Raise e, w)).
Proof.
  intros key.
  destruct (upload_asset_outcome E logo_url key w) as (Hhit & Hnew & Hfail).
  split; [|exact Hfail].
  intros Hcan. destruct (bucket w !! key) as [o|] eqn:Hkey.
  - exists w. split; [apply Hhit; by eexists|]. split; [by repeat split|].
    split; [done|]. exists o. split; [done|]. done.
  - destruct Hcan as [[? ?]|Hgo]; [done|].
    destruct (Hnew eq_refl Hgo) as (content_type & body & Hdl & Hrun).
    eexists. split; [exact Hrun|]. split.
    { split; [|done]. intros k Hk. cbn. by rewrite lookup_insert_ne. }
    split; [by intros [? ?]|]. eexists. split; [cbn; apply lookup_insert_eq|].
    intros _. cbn. split; [by exists content_type|done].
Qed.

(** X10: [upload_team_logo] returns exactly when the key is already in
    the bucket or a fresh transfer goes through; it then returns the
    public URL of the key in both cases, the key is in the bucket
    afterwards, a fresh object carries the downloaded body with the
    one-year cache directive, and nothing but that bucket entry changes.
    When it raises, nothing at all has changed. *)
Theorem upload_team_logo_outcome (E : env) (team_id logo_url : string) (w : world) :
  let key := team_key team_id in
  (is_Some (bucket w !! key) ∨ transfers E logo_url key = true →
     ∃ w', upload_team_logo E team_id logo_url w = (Ok (get_public_url E key), w')
           ∧ only_touches_key key w w'
           ∧ (is_Some (bucket w !! key) → w' = w)
           ∧ ∃ o, bucket w' !! key = Some o
                  ∧ (bucket w !! key = None →
                       (∃ content_type, download E logo_url = Ok (content_type, ob_body o))
                       ∧ ob_cache_control o = "public, max-age=31536000"
                       ∧ puts w' = key :: puts w))
  ∧ (bucket w !! key = None → transfers E logo_url key = false →
       ∃ e, upload_team_logo E team_id logo_url w = (Raise e, w)).
Proof. apply upload_team_logo_effect. Qed.

Lemma upload_team_logo_outcome_witness :
  ∃ w', upload_team_logo Sample.calm "33" "https://media.api-sports.io/football/teams/33.png"
          empty_world
        = (Ok "https://cdn.golex.app/teams/33.png", w')
        ∧ only_touches_key "teams/33.png" empty_world w'.
Proof.
  destruct (proj1 (upload_team_logo_outcome Sample.calm "33"
                     "https://media.api-sports.io/football/teams/33.png" empty_world))
    as (w' & Hrun & Htouch & _).
  - right. reflexivity.
  - exists w'. by split.
Defined.

(** X11: the keys of the three kinds of assets never collide: different
    teams (players, leagues) have different keys, and a team key is
    neither a player key nor a league key.  So an upload of a player
    photo or a league logo leaves every team logo of the bucket as it
    was. *)
Theorem asset_keys_do_not_collide :
  (∀ a b, team_key a = team_key b → a = b)
  ∧ (∀ a b, player_key a = player_key b → a = b)
  ∧ (∀ a b, league_key a = league_key b → a = b)
  ∧ (∀ a b, team_key a ≠ player_key b ∧ team_key a ≠ league_key b
            ∧ player_key a ≠ league_key b)
  ∧ (∀ E id url team_id w,
       bucket (exec (upload_player_photo E id url) w) !! team_key team_id
       = bucket w !! team_key team_id
       ∧ bucket (exec (upload_league_logo E id url) w) !! team_key team_id
         = bucket w !! team_key team_id).
Proof.
  assert (Hdiff : ∀ a b, team_key a ≠ player_key b ∧ team_key a ≠ league_key b
                         ∧ player_key a ≠ league_key b).
  { intros a b. by repeat split. }
  split; [intros a b; apply asset_key_inj|].
  split; [intros a b; apply asset_key_inj|].
  split; [intros a b; apply asset_key_inj|].
  split; [exact Hdiff|].
  assert (Hbody : ∀ E url key k w, k ≠ key →
            bucket (exec (present <- file_exists key ;;
                          if (present : bool) then ret (get_public_url E key)
                          else upload_from_url E url key) w) !! k
            = bucket w !! k).
  { intros E url key k w Hk. unfold exec, bind, file_exists.
    destruct (bool_decide _); [done|].
    unfold upload_from_url, bind, lift, upload_file.
    destruct (download E url) as [[ct body]|]; [|done].
    destruct (put_object_ok E key); [|done]. cbn. by rewrite lookup_insert_ne. }
  intros E id url team_id w. split.
  - apply (Hbody E url (player_key id)). apply (Hdiff team_id id).
  - apply (Hbody E url (league_key id)). apply (Hdiff team_id id).
Qed.

Lemma asset_keys_do_not_collide_witness : "33" = "33".
Proof.
  exact (proj1 asset_keys_do_not_collide "33" "33" eq_refl).
Defined.

(** X12: [delete_file] answers [False] exactly when [delete_object]
    raises a [ClientError], and then nothing changes; any other
    exception of [delete_object] leaves [delete_file], again with
    nothing changed.  When the service accepts the deletion it answers
    [True], the key is gone, so that the existence check fails and the
    next [upload_team_logo] transfers the logo anew; every other key and
    the relational store are untouched. *)
Theorem delete_file_outcome
    (E : env) (delete_object : string → result unit) (team_id logo_url : string)
    (w : world) :
  let key := team_key team_id in
  let w' := exec (delete_file delete_object key) w in
  (delete_object key = Raise ClientError →
     delete_file delete_object key w = (Ok false, w))
  ∧ (∀ e, e ≠ ClientError → delete_object key = Raise e →
       delete_file delete_object key w = (Raise e, w))
  ∧ (eval (delete_file delete_object key) w = Ok false →
       delete_object key = Raise ClientError)
  ∧ (delete_object key = Ok tt →
       eval (delete_file delete_object key) w = Ok true
       ∧ eval (file_exists key) w' = Ok false
       ∧ only_touches_key key w w'
       ∧ puts w' = puts w
       ∧ (transfers E logo_url key = true →
            puts (exec (upload_team_logo E team_id logo_url) w') = key :: puts w)).
Proof.
  intros key w'. subst w'. unfold delete_file, eval, exec.
  split; [by intros ->|]. split; [intros e He ->; by destruct e|]. split.
  { destruct (delete_object key) as [[]|[]]; cbn [fst]; done. }
  intros ->. cbn [fst snd]. split; [done|]. split.
  { unfold file_exists. cbn. rewrite lookup_delete_eq.
    rewrite bool_decide_eq_false_2; [done|]. by intros [? ?]. }
  split.
  { split; [|done]. intros k Hk. cbn. by rewrite lookup_delete_ne. }
  split; [done|]. intros Hgo.
  destruct (upload_asset_outcome E logo_url key (drop_bucket key w))
    as (_ & Hnew & _).
  destruct Hnew as (ct & body & _ & Hrun); [cbn; apply lookup_delete_eq | done |].
  unfold upload_team_logo. change ("teams/" +:+ team_id +:+ ".png") with key.
  cbn zeta. by rewrite Hrun.
Qed.

Lemma delete_file_outcome_witness :
  let w := exec (upload_team_logo Sample.calm "33" "https://x/33.png") empty_world in
  eval (file_exists "teams/33.png") w = Ok true
  ∧ eval (file_exists "teams/33.png") (exec (delete_file (λ _, Ok tt) "teams/33.png") w)
    = Ok false
  ∧ delete_file (λ _, Raise ClientError) "teams/33.png" w = (Ok false, w)
  ∧ delete_file (λ _, Raise EndpointConnectionError) "teams/33.png" w
    = (Raise EndpointConnectionError, w).
Proof.
  intros w. split; [reflexivity|]. split; [|split].
  - exact (proj1 (proj2 (proj2 (proj2 (proj2
      (delete_file_outcome Sample.calm (λ _, Ok tt) "33" "https://x/33.png" w))) eq_refl))).
  - exact (proj1 (delete_file_outcome Sample.calm (λ _, Raise ClientError) "33"
                    "https://x/33.png" w) eq_refl).
  - apply (proj1 (proj2 (delete_file_outcome Sample.calm
                           (λ _, Raise EndpointConnectionError) "33"
                           "https://x/33.png" w))); [discriminate|reflexivity].
Defined.

End Bucket.

(** ** The logo backfill and the team rows *)

Section LogoBackfillRows.

Local Open Scope list_scope.

Lemma each_team_step (E : env) (team_id api_logo_url : string)
    (rest : list (string * string)) (uploaded : Z) (w : world) :
  each_team E ((team_id, api_logo_url) :: rest) uploaded w
  = match upload_team_logo E team_id api_logo_url w with
    | (Ok r2_url, w1) =>
        each_team E rest (uploaded + 1)
          (set_teams (alter (with_logo (VStr r2_url)) team_id (teams w1)) w1)
    | (Raise _, w1) => each_team E rest uploaded w1
    end.
Proof.
  cbn [each_team]. unfold bind, try_except, ret, update_logo.
  by destruct (upload_team_logo E team_id api_logo_url w) as [[r2_url|e] w1].
Qed.

(** What one call of [upload_team_logo] can do, in the terms the loop
    needs. *)
Lemma upload_team_logo_cases (E : env) (team_id logo_url : string) (w : world) :
  (∃ w1, upload_team_logo E team_id logo_url w
         = (Ok (get_public_url E (team_key team_id)), w1)
         ∧ only_touches_key (team_key team_id) w w1
         ∧ (puts w1 = puts w ∨ puts w1 = team_key team_id :: puts w)
         ∧ (is_Some (bucket w !! team_key team_id)
            ∨ transfers E logo_url (team_key team_id) = true))
  ∨ ((∃ e, upload_team_logo E team_id logo_url w = (Raise e, w))
     ∧ bucket w !! team_key team_id = None
     ∧ transfers E logo_url (team_key team_id) = false).
Proof.
  destruct (upload_team_logo_effect E team_id logo_url w) as [Hok Hfail].
  destruct (bucket w !! team_key team_id) as [o|] eqn:Hkey.
  - left. destruct Hok as (w1 & Hrun & Htouch & Hsame & _); [left; by eexists|].
    exists w1. rewrite (Hsame ltac:(by eexists)) in *.
    split; [done|]. split; [done|]. split; [by left|]. left. by eexists.
  - destruct (transfers E logo_url (team_key team_id)) eqn:Hgo.
    + left. destruct Hok as (w1 & Hrun & Htouch & _ & o & _ & Hnew); [by right|].
      exists w1. split; [done|]. split; [done|].
      split; [right; by apply Hnew|]. by right.
    + right. split; [by apply Hfail|done].
Qed.

Lemma only_promotes_logos_refl (E : env) (w w' : world) :
  teams w' = teams w → fixtures w' = fixtures w → fixture_stats w' = fixture_stats w →
  clock w' = clock w → only_promotes_logos E w w'.
Proof. intros Ht Hf Hs Hc. split; [|done]. intros id. left. by rewrite Ht. Qed.

Lemma only_promotes_logos_trans (E : env) (w1 w2 w3 : world) :
  only_promotes_logos E w1 w2 → only_promotes_logos E w2 w3 → only_promotes_logos E w1 w3.
Proof.
  intros (H12 & Hf & Hs & Hc) (H23 & Hf' & Hs' & Hc').
  split; [|repeat split; congruence].
  intros id. destruct (H12 id) as [Hsame|(r & Hr & Hr')], (H23 id) as [Hsame'|(r' & Hq & Hq')].
  - left. congruence.
  - right. exists r'. split; congruence.
  - right. exists r. split; congruence.
  - right. exists r. split; [done|]. rewrite Hq'. rewrite Hr' in Hq. by injection Hq as <-.
Qed.

Lemma each_team_only_promotes_logos (E : env) (selected : list (string * string)) :
  ∀ uploaded (w : world),
    only_promotes_logos E w (exec (each_team E selected uploaded) w).
Proof.
  induction selected as [|[team_id url] rest IH]; intros uploaded w.
  - by apply only_promotes_logos_refl.
  - unfold exec in *. rewrite each_team_step.
    destruct (upload_team_logo_cases E team_id url w)
      as [(w1 & -> & (_ & Hf & Ht & Hs & Hc) & _)|((e & ->) & _)]; [|apply IH].
    eapply only_promotes_logos_trans; [|apply IH].
    split; [|by repeat split]. intros id. cbn [teams set_teams]. rewrite Ht.
    destruct (decide (id = team_id)) as [->|Hne].
    + rewrite lookup_alter_eq. destruct (teams w !! team_id) as [r|]; [|by left].
      right. by exists r.
    + left. by rewrite lookup_alter_ne.
Qed.

(** The frame of a whole run of [sync_team_logos]. *)
Lemma sync_team_logos_frame (E : env) (limit : Z) (w : world) :
  only_promotes_logos E w (exec (sync_team_logos E limit) w).
Proof.
  unfold exec, sync_team_logos, bind, select_upstream_teams.
  destruct (sql_limit limit _) as [selected|]; [|by apply only_promotes_logos_refl].
  apply each_team_only_promotes_logos.
Qed.

(** X13: [sync_team_logos] writes nothing but logo references: the
    [teams] table keeps its ids, every row is either as it was or differs
    only in its logo, which is then the owned URL of the team's own key;
    fixtures and statistics are untouched. *)
Theorem sync_team_logos_only_promotes_logos (E : env) (limit : Z) (w : world) :
  only_promotes_logos E w (exec (sync_team_logos E limit) w).
Proof. apply sync_team_logos_frame. Qed.

Lemma each_team_bounds (E : env) (selected : list (string * string)) :
  ∀ uploaded (w : world),
    ∃ n w' new,
      each_team E selected uploaded w = (Ok n, w')
      ∧ puts w' = new ++ puts w
      ∧ uploaded + Z.of_nat (List.length new) ≤ n
      ∧ n ≤ uploaded + Z.of_nat (List.length selected).
Proof.
  induction selected as [|[team_id url] rest IH]; intros uploaded w.
  - exists uploaded, w, []. cbn. repeat split; lia.
  - rewrite each_team_step.
    destruct (upload_team_logo_cases E team_id url w)
      as [(w1 & -> & _ & Hputs & _)|((e & ->) & _)].
    + destruct (IH (uploaded + 1)
                   (set_teams (alter (with_logo (VStr (get_public_url E (team_key team_id))))
                                     team_id (teams w1)) w1))
        as (n & w' & new & -> & Hp & Hlo & Hhi).
      cbn [puts set_teams] in Hp.
      destruct Hputs as [Hsame|Hput].
      * exists n, w', new. rewrite Hp, Hsame. cbn [List.length]. repeat split; lia.
      * exists n, w', (new ++ [team_key team_id]). rewrite Hp, Hput, <- app_assoc.
        rewrite List.length_app. cbn [List.length]. repeat split; lia.
    + destruct (IH uploaded w) as (n & w' & new & -> & Hp & Hlo & Hhi).
      exists n, w', new. cbn [List.length]. repeat split; [done|lia|lia].
Qed.

(** Count and uploads of a run against its cap. *)
Lemma sync_team_logos_bounds (E : env) (limit : Z) (w : world) :
  (0 ≤ limit ≤ 9223372036854775807 →
     ∃ n w' new,
       sync_team_logos E limit w = (Ok n, w')
       ∧ puts w' = new ++ puts w
       ∧ Z.of_nat (List.length new) ≤ n ∧ n ≤ limit)
  ∧ (limit < 0 → sync_team_logos E limit w = (Raise PostgresError, w)).
Proof.
  unfold sync_team_logos, bind, select_upstream_teams, sql_limit. split.
  - intros Hlimit.
    destruct (Z.ltb_spec limit 0) as [?|_]; [lia|].
    destruct (Z.ltb_spec 9223372036854775807 limit) as [?|_]; [lia|]. cbn [orb].
    set (selected := take (Z.to_nat limit) _).
    destruct (each_team_bounds E selected 0 w) as (n & w' & new & Hrun & Hp & Hlo & Hhi).
    exists n, w', new. split; [done|]. split; [done|]. split; [lia|].
    assert (List.length selected ≤ Z.to_nat limit)%nat
      by (subst selected; rewrite length_take; lia).
    lia.
  - intros Hneg. destruct (Z.ltb_spec limit 0) as [_|?]; [|lia]. reflexivity.
Qed.

(** X14: with a valid cap, [sync_team_logos] returns a count between 0
    and the cap, no more than there are teams, and puts at most as many
    objects into the bucket as the cap allows: at most that many teams
    are selected, and each selected team is counted at most once and
    gets at most one transfer.  With a negative cap the selection query
    fails, the error leaves the run and nothing changes. *)
Theorem sync_team_logos_within_cap (E : env) (limit : Z) (w : world) :
  (0 ≤ limit ≤ 9223372036854775807 →
     ∃ n w' new,
       sync_team_logos E limit w = (Ok n, w')
       ∧ puts w' = new ++ puts w
       ∧ 0 ≤ n ≤ limit
       ∧ n ≤ Z.of_nat (size (teams w))
       ∧ Z.of_nat (List.length new) ≤ limit)
  ∧ (limit < 0 → sync_team_logos E limit w = (Raise PostgresError, w)).
Proof.
  split; [|apply sync_team_logos_bounds].
  intros Hlimit. unfold sync_team_logos, bind, select_upstream_teams, sql_limit.
  destruct (Z.ltb_spec limit 0) as [?|_]; [lia|].
  destruct (Z.ltb_spec 9223372036854775807 limit) as [?|_]; [lia|]. cbn [orb].
  set (candidates := omap _ (map_to_list (teams w))).
  destruct (each_team_bounds E (take (Z.to_nat limit) candidates) 0 w)
    as (n & w' & new & Hrun & Hp & Hlo & Hhi).
  exists n, w', new. split; [done|]. split; [done|].
  assert (Hcand : (List.length candidates ≤ size (teams w))%nat).
  { subst candidates. rewrite <- length_map_to_list.
    generalize (map_to_list (teams w)). intros l.
    induction l as [|x l IH]; [done|]. cbn. destruct (_ ≫= _); cbn; lia. }
  rewrite length_take in Hhi. lia.
Qed.

Lemma sync_team_logos_within_cap_witness :
  let w := exec (_save_fixture Sample.calm
                   (Sample.fixture_payload 1 Sample.united Sample.newcastle))
                empty_world in
  size (teams w) = 2%nat
  ∧ (∃ w' key, sync_team_logos Sample.calm 1 w = (Ok 1, w') ∧ puts w' = [key])
  ∧ sync_team_logos Sample.calm (-1) w = (Raise PostgresError, w).
Proof.
  intros w. split; [reflexivity|]. split.
  - destruct (proj1 (sync_team_logos_within_cap Sample.calm 1 w))
      as (n & w' & new & Hrun & Hputs & Hn & _ & Hnew); [lia|].
    assert (Hone : n = 1 ∧ List.length (puts w') = 1%nat).
    { vm_compute in Hrun. injection Hrun as <- <-. by vm_compute. }
    destruct Hone as [-> Hlen]. exists w'.
    destruct (puts w') as [|key [|? ?]]; try discriminate Hlen.
    by exists key.
  - apply (proj2 (sync_team_logos_within_cap Sample.calm (-1) w)). lia.
Defined.

Lemma each_team_all_fail (E : env) (selected : list (string * string)) :
  (∀ team_id url, transfers E url (team_key team_id) = false) →
  ∀ uploaded (w : world),
    (∀ p, p ∈ selected → bucket w !! team_key (fst p) = None) →
    each_team E selected uploaded w = (Ok uploaded, w).
Proof.
  intros Hdown. induction selected as [|[team_id url] rest IH]; intros uploaded w Hmiss.
  - reflexivity.
  - rewrite each_team_step.
    destruct (upload_team_logo_cases E team_id url w)
      as [(w1 & _ & _ & _ & [[o Ho]|Hgo])|((e & ->) & _)].
    + specialize (Hmiss (team_id, url) ltac:(by left)). cbn in Hmiss. congruence.
    + by rewrite Hdown in Hgo.
    + apply IH. intros p Hp. apply Hmiss. by right.
Qed.

(** X15: when no transfer goes through (the download or the upload of
    every logo fails) and no selected logo is in the bucket yet,
    [sync_team_logos] returns 0 and leaves every team row on its upstream
    logo: the world is exactly as before, so the next run tries again. *)
Theorem sync_team_logos_failed_transfers_change_nothing
    (E : env) (limit : Z) (w : world) :
  0 ≤ limit ≤ 9223372036854775807 →
  (∀ team_id url, transfers E url (team_key team_id) = false) →
  (∀ team_id, is_Some (teams w !! team_id) → bucket w !! team_key team_id = None) →
  sync_team_logos E limit w = (Ok 0, w).
Proof.
  intros Hlimit Hdown Hmiss.
  unfold sync_team_logos, bind, select_upstream_teams, sql_limit.
  destruct (Z.ltb_spec limit 0) as [?|_]; [lia|].
  destruct (Z.ltb_spec 9223372036854775807 limit) as [?|_]; [lia|]. cbn [orb].
  apply each_team_all_fail; [done|].
  intros [team_id url] Hin. cbn [fst]. apply Hmiss.
  apply subseteq_take in Hin. apply list_elem_of_omap in Hin as ([k r] & Hrow & Hsel).
  apply elem_of_map_to_list in Hrow. cbn in Hsel.
  destruct (has_upstream_logo r); [|done]. injection Hsel as -> _. by eexists.
Qed.

Lemma sync_team_logos_failed_transfers_change_nothing_witness :
  let w := exec (_save_team Sample.united) empty_world in
  sync_team_logos Sample.down 50 w = (Ok 0, w).
Proof.
  intros w.
  apply (sync_team_logos_failed_transfers_change_nothing Sample.down 50 w);
    [lia | reflexivity | reflexivity].
Defined.

End LogoBackfillRows.

(** ** The logo backfill runs dry *)

Section LogoBackfillCompletes.

Local Open Scope list_scope.

Variable E : env.

(** Every transfer goes through, and an owned URL is not mistaken for an
    upstream one by the selection query. *)
Hypothesis transfers_go_through : ∀ url key, transfers E url key = true.
Hypothesis owned_is_not_upstream :
  ∀ team_id, startswith upstream_prefix (get_public_url E (team_key team_id)) = false.





End LogoBackfillCompletes.


(** ** [get_fixtures]: nothing is lost or doubled *)

Section FixtureQueryComplete.

Local Open Scope list_scope.

(** X17: with a valid cap, [get_fixtures] returns no fixture twice, and
    when the cap is at least the number of stored fixtures it returns
    every stored fixture that satisfies the filters.  With a negative cap
    the query fails and the error is raised to the caller. *)
Theorem get_fixtures_returns_each_match_once
    (E : env) (date_from date_to league_id status : option string)
    (limit : Z) (w : world) :
  (0 ≤ limit ≤ 9223372036854775807 →
     ∃ rows, get_fixtures E date_from date_to league_id status limit w = (Ok rows, w)
       ∧ NoDup rows.*1
       ∧ (Z.of_nat (size (fixtures w)) ≤ limit →
          ∀ id r, fixtures w !! id = Some r →
                  where_clause E date_from date_to league_id status r = true →
                  (id, r) ∈ rows))
  ∧ (limit < 0 →
     get_fixtures E date_from date_to league_id status limit w = (Raise PostgresError, w)).
Proof.
  unfold get_fixtures, sql_limit. split.
  - intros Hlimit.
    destruct (Z.ltb_spec limit 0) as [?|_]; [lia|].
    destruct (Z.ltb_spec 9223372036854775807 limit) as [?|_]; [lia|]. cbn [orb].
    set (selected := filter _ (map_to_list (fixtures w))).
    eexists. split; [reflexivity|]. split.
    + apply NoDup_fmap_fst.
      * intros id r1 r2 H1 H2.
        apply subseteq_take in H1, H2. rewrite merge_sort_Permutation in H1, H2.
        apply list_elem_of_filter in H1 as [_ H1], H2 as [_ H2].
        apply elem_of_map_to_list in H1, H2. congruence.
      * eapply sublist_NoDup; [|apply sublist_take].
        rewrite merge_sort_Permutation.
        apply NoDup_filter, NoDup_map_to_list.
    + intros Hall id r Hrow Hpass.
      rewrite take_ge.
      * rewrite merge_sort_Permutation. apply list_elem_of_filter. split.
        -- by apply Is_true_true.
        -- by apply elem_of_map_to_list.
      * rewrite merge_sort_Permutation.
        pose proof (length_filter
                      (λ kr, Is_true (where_clause E date_from date_to league_id status kr.2))
                      (map_to_list (fixtures w))) as Hlen.
        rewrite length_map_to_list in Hlen. fold selected in Hlen.
        enough (List.length selected ≤ size (fixtures w))%nat by lia. exact Hlen.
  - intros Hneg. destruct (Z.ltb_spec limit 0) as [_|?]; [|lia]. reflexivity.
Qed.

Lemma get_fixtures_returns_each_match_once_witness :
  let w := exec (sync_fixtures Sample.calm "2025-10-01" "2025-10-07" (Some ["39"]))
                empty_world in
  (∃ rows r,
     get_fixtures Sample.calm None None (Some "39") None 2 w = (Ok rows, w)
     ∧ NoDup rows.*1
     ∧ fixtures w !! "2" = Some r ∧ ("2", r) ∈ rows)
  ∧ get_fixtures Sample.calm None None None None (-5) w = (Raise PostgresError, w).
Proof.
  intros w. split.
  - destruct (proj1 (get_fixtures_returns_each_match_once Sample.calm
                       None None (Some "39") None 2 w))
      as (rows & Hrun & Honce & Hall); [lia|].
    destruct (fixtures w !! "2") as [r|] eqn:Hr; [|by vm_compute in Hr].
    exists rows, r. split; [exact Hrun|]. split; [exact Honce|].
    split; [reflexivity|].
    apply Hall; [by vm_compute | exact Hr |].
    vm_compute in Hr. injection Hr as <-. reflexivity.
  - apply (proj2 (get_fixtures_returns_each_match_once Sample.calm
                    None None None None (-5) w)).
    lia.
Defined.

End FixtureQueryComplete.

(** ** The scheduled tasks *)

Section ScheduledTasks.

Local Open Scope list_scope.

(** X18: [live_score_sync] asks for a window of a single day.  When the
    pool cannot be created the error is raised and nothing has happened.
    Otherwise the task ends normally with the pool closed, having done to
    the store what [sync_fixtures] over today's fixtures of the default
    leagues does: no row removed, and the bucket and the statistics
    untouched. *)
Theorem live_score_sync_outcome
    (E : env) (strftime : Z → string) (today : Z) (p : process) :
  (∀ e, live_score_sync E (Some e) strftime today p = (Raise e, p))
  ∧ (let '(r, p') := live_score_sync E None strftime today p in
     r = Ok tt
     ∧ pool p' = PoolClosed
     ∧ store p' = exec (sync_fixtures E (strftime today) (strftime today) None) (store p)
     ∧ only_adds_rows (store p) (store p')).
Proof.
  split; [done|].
  unfold live_score_sync, connected, connect, bind, ret. cbn [store pool].
  pose proof (sync_fixtures_frame E (strftime today) (strftime today) None
                (store p)) as Hframe.
  unfold exec in *.
  destruct (sync_fixtures E (strftime today) (strftime today) None (store p))
    as [[n|e] w'] eqn:Hrun.
  - cbn [snd] in Hframe. unfold disconnect. cbn [pool store snd].
    split; [done|]. split; [done|]. split; [done|]. exact Hframe.
  - unfold sync_fixtures in Hrun. by destruct (each_league _ _ _ _ _ _).
Qed.

(** X19: the daily task and the manual run raise the error of a failed
    [connect] without touching anything.  Otherwise they end normally
    with the pool closed, after [sync_fixtures] over the next seven days
    followed by one logo backfill; the daily task puts at most 50 objects
    into the bucket and the manual run at most 100, and neither changes
    the statistics. *)
Theorem daily_fixture_sync_outcome
    (E : env) (strftime : Z → string) (today : Z) (p : process) :
  (∀ e, daily_fixture_sync E (Some e) strftime today p = (Raise e, p)
        ∧ main E (Some e) strftime today p = (Raise e, p))
  ∧ (let '(r, p') := daily_fixture_sync E None strftime today p in
     r = Ok tt ∧ pool p' = PoolClosed
     ∧ fixture_stats (store p') = fixture_stats (store p)
     ∧ ∃ new, puts (store p') = new ++ puts (store p) ∧ (List.length new ≤ 50)%nat)
  ∧ (let '(r, p') := main E None strftime today p in
     r = Ok tt ∧ pool p' = PoolClosed
     ∧ fixture_stats (store p') = fixture_stats (store p)
     ∧ ∃ new, puts (store p') = new ++ puts (store p) ∧ (List.length new ≤ 100)%nat).
Proof.
  assert (Hbody : ∀ cap, 0 ≤ cap ≤ 9223372036854775807 →
            ∃ w' new,
              (sync_fixtures E (strftime today) (strftime (today + 7)) None ;;;
               sync_team_logos E cap ;;; ret tt) (store p) = (Ok tt, w')
              ∧ fixture_stats w' = fixture_stats (store p)
              ∧ puts w' = new ++ puts (store p)
              ∧ Z.of_nat (List.length new) ≤ cap).
  { intros cap Hcap. unfold bind at 1.
    pose proof (sync_fixtures_frame E (strftime today) (strftime (today + 7)) None
                  (store p)) as (_ & _ & Hs & _ & Hp & _).
    unfold exec, sync_fixtures in *.
    destruct (each_league E (strftime today) (strftime (today + 7)) default_leagues 0
                (store p)) as [total w1]. cbn [fst snd] in *.
    unfold bind, ret.
    destruct (proj1 (sync_team_logos_bounds E cap w1) Hcap)
      as (n & w' & new & Hrun & Hnew & Hlen & Hle).
    pose proof (sync_team_logos_frame E cap w1) as (_ & _ & Hs' & _).
    unfold exec in Hs'. rewrite Hrun in *. cbn [snd] in Hs'.
    exists w', new. split; [done|]. split; [congruence|]. split; [congruence|]. lia. }
  split; [done|]. split.
  - destruct (Hbody 50 ltac:(lia)) as (w' & new & Hrun & Hs & Hp & Hlen).
    unfold daily_fixture_sync, connected, connect. cbn [store pool]. rewrite Hrun.
    cbn. split; [done|]. split; [done|]. split; [done|]. exists new. split; [done|lia].
  - destruct (Hbody 100 ltac:(lia)) as (w' & new & Hrun & Hs & Hp & Hlen).
    unfold main, connected, connect, try_except. cbn [store pool]. rewrite Hrun.
    cbn. split; [done|]. split; [done|]. split; [done|]. exists new. split; [done|lia].
Qed.

End ScheduledTasks.
